(** * TAXism backend: the calculation and validation layer of [main.py]
    and [schemas.py], as a shallow embedding.

    Python values are modelled the way the code holds them:
    - [float] is IEEE-754 binary64, here the Standard Library's executable
      specification [spec_float] with [prec = 53] and [emax = 1024];
    - [int] is [Z];
    - [str] is [string] (the UTF-8 bytes of the text);
    - [dict] is a [gmap string json], a JSON document is a [json];
    - a raised exception is the [Raise] branch of [result]. *)

From Stdlib Require Import ZArith QArith Qabs Qpower String Ascii List Bool.
From Stdlib Require Import Lia Lqa.
From Stdlib Require Import Floats.SpecFloat.
From stdpp Require Import gmap strings list.

Open Scope Z_scope.

(** ** Exceptions and the error monad *)

(** The constraint a pydantic field carries: [ge=], [le=], or the closed
    set of a [Literal]. *)
Inductive constraint : Type :=
| Ge (bound : Z)
| Le (bound : Z)
| Literal (allowed : list string).

(** One line of a pydantic [ValidationError]: the field and the
    constraint it broke. *)
Definition field_error : Type := (string * constraint)%type.

Inductive exn : Type :=
| ValidationError (errors : list field_error)
| ZeroDivisionError
| OverflowError
| ValueError
| TypeError.

Inductive result (A : Type) : Type :=
| Ok (a : A)
| Raise (e : exn).
Arguments Ok {A} a.
Arguments Raise {A} e.

(** [result] is a monad; stdpp's [x ← c; k] sequences calls and passes
    the first exception on. *)
#[export] Instance result_ret : MRet result := fun _ a => Ok a.
#[export] Instance result_bind : MBind result := fun _ _ k c =>
  match c with
  | Ok a => k a
  | Raise e => Raise e
  end.

(** ** Python floats *)
Module PyFloat.

Definition prec : Z := 53.
Definition emax : Z := 1024.

Definition float : Type := spec_float.

Definition fadd : float -> float -> float := SFadd prec emax.
Definition fsub : float -> float -> float := SFsub prec emax.
Definition fmul : float -> float -> float := SFmul prec emax.
Definition fdiv : float -> float -> float := SFdiv prec emax.
Definition fneg : float -> float := SFopp.
Definition fabs : float -> float := SFabs.

#[export] Instance float_eq_dec : EqDecision float.
Proof. solve_decision. Defined.

(** [x < y] and [x >= y]; both are [False] when an operand is NaN. *)
Definition flt (x y : float) : bool := SFltb x y.
Definition fge (x y : float) : bool :=
  match SFcompare x y with
  | Some (Gt | Eq) => true
  | _ => false
  end.

Definition is_finite (x : float) : bool :=
  match x with
  | S754_zero _ | S754_finite _ _ _ => true
  | _ => false
  end.

Definition is_zero (x : float) : bool :=
  match x with
  | S754_zero _ => true
  | _ => false
  end.

(** The double nearest to the integer [z] (ties to even); the result is
    an infinity when [z] is out of range. *)
Definition of_Z (z : Z) : float := binary_normalize prec emax z 0 false.

(** [float(n)] for an [int]: raises [OverflowError] when [n] is too
    large for a double. *)
Definition of_int (n : Z) : result float :=
  let x := of_Z n in
  if is_finite x then Ok x else Raise OverflowError.

(** The double nearest to the positive fraction [n / d], with sign [s]. *)
Definition of_ratio (s : bool) (n d : positive) : float :=
  let '(mz, ez, lz) := SFdiv_core_binary prec emax (Zpos n) 0 (Zpos d) 0 in
  binary_round_aux prec emax s mz ez lz.

(** [a / b] rounded to the nearest integer, ties to the even one
    ([0 <= a], [0 < b]). *)
Definition div_half_even (a b : Z) : Z :=
  let q := a / b in
  let r := a mod b in
  match 2 * r ?= b with
  | Lt => q
  | Gt => q + 1
  | Eq => if Z.even q then q else q + 1
  end.

(** The integer nearest to [100 * m * 2^e], ties to even: the digits
    that the two-decimal conversion of [round(x, 2)] keeps. *)
Definition cents (m : positive) (e : Z) : Z :=
  match e with
  | Zneg k => div_half_even (100 * Zpos m) (2 ^ Zpos k)
  | _ => 100 * Zpos m * 2 ^ e
  end.

(** [round(x, 2)]: NaN and the infinities round to themselves; a finite
    [x] is converted to the decimal with two fractional digits nearest to
    its exact value (ties to even) and that decimal is read back as the
    nearest double. The sign of [x] is kept, also on a zero result. *)
Definition round2 (x : float) : float :=
  match x with
  | S754_finite s m e =>
      match cents m e with
      | Zpos n => of_ratio s n 100
      | _ => S754_zero s
      end
  | _ => x
  end.

(** The exact value of a finite float, as a rational: [m * 2^e] with its
    sign. *)
Definition F2Q (x : float) : Q :=
  match x with
  | S754_finite s m e =>
      let v := (inject_Z (Zpos m) * 2 ^ e)%Q in
      if s then Qopp v else v
  | _ => 0%Q
  end.

End PyFloat.
Import PyFloat.


(** ** JSON documents and Python's built-in conversions *)

(** What a request body decodes to, and what a [dict] holds. *)
#[local] Set Warnings "-register-all".
Inductive json : Type :=
| JNull
| JBool (b : bool)
| JInt (n : Z)
| JFloat (x : float)
| JStr (s : string)
| JList (l : list json)
| JDict (d : gmap string json).
#[local] Set Warnings "register-all".

(** A Python [dict] with [str] keys. *)
Abbreviation dict := (gmap string json).

(** [d.get(key, default)] and [d.get(key)]. *)
Definition get_default (d : dict) (key : string) (dflt : json) : json :=
  default dflt (d !! key).
Definition get (d : dict) (key : string) : json := get_default d key JNull.

(** Built-ins whose tables lie outside the repository: the decimal parser
    behind [float(str)] ([None] is a [ValueError]) and the Unicode case
    mapping that [str.lower] applies to text with a non-ASCII character. *)
Class PyBuiltins : Type := {
  parse_float : string -> option float;
  unicode_lower : string -> string
}.

(** An instance to evaluate the functions on requests that carry no number
    as text and no non-ASCII category. *)
Definition ascii_builtins : PyBuiltins :=
  {| parse_float := fun _ => None; unicode_lower := fun s => s |}.

Section Builtins.
Context `{PyBuiltins}.

(** [float(v)] *)
Definition to_float (v : json) : result float :=
  match v with
  | JFloat x => Ok x
  | JInt n => of_int n
  | JBool b => Ok (of_Z (if b then 1 else 0))
  | JStr s =>
      match parse_float s with
      | Some x => Ok x
      | None => Raise ValueError
      end
  | JNull | JList _ | JDict _ => Raise TypeError
  end.

Definition is_ascii (c : ascii) : bool := (nat_of_ascii c <? 128)%nat.

Definition lower_ascii (c : ascii) : ascii :=
  let n := nat_of_ascii c in
  if ((65 <=? n) && (n <=? 90))%nat then ascii_of_nat (n + 32) else c.

Fixpoint all_ascii (s : string) : bool :=
  match s with
  | EmptyString => true
  | String c s' => is_ascii c && all_ascii s'
  end.

Fixpoint map_chars (f : ascii -> ascii) (s : string) : string :=
  match s with
  | EmptyString => EmptyString
  | String c s' => String (f c) (map_chars f s')
  end.

(** [s.lower()] *)
Definition lower (s : string) : string :=
  if all_ascii s then map_chars lower_ascii s else unicode_lower s.

End Builtins.

(** A [for] loop whose body may raise: the state is threaded through the
    items in order and the first exception ends the loop. *)
Fixpoint for_each {A S : Type} (body : S -> A -> result S) (items : list A)
    (s : S) : result S :=
  match items with
  | [] => Ok s
  | x :: items' => s' ← body s x; for_each body items' s'
  end.

(** ** Field validation (pydantic) *)

Definition check_float_ge (field : string) (x : float) (bound : Z)
    : list field_error :=
  if fge x (of_Z bound) then [] else [(field, Ge bound)].

Definition check_int_ge (field : string) (n bound : Z) : list field_error :=
  if bound <=? n then [] else [(field, Ge bound)].

Definition check_int_le (field : string) (n bound : Z) : list field_error :=
  if n <=? bound then [] else [(field, Le bound)].

Definition check_literal (field value : string) (allowed : list string)
    : list field_error :=
  if existsb (String.eqb value) allowed then [] else [(field, Literal allowed)].

(** A model is built when no field failed; otherwise one
    [ValidationError] lists the failures in field order. *)
Definition validated {A : Type} (errors : list field_error) (a : A) : result A :=
  match errors with
  | [] => Ok a
  | _ => Raise (ValidationError errors)
  end.

(** [datetime.date] *)
Record date : Type := { year : Z; month : Z; day : Z }.

(** ** schemas.py *)

Module Memo.
Record t : Type := {
  title : string;
  position_summary : string;
  citations : list string;
  memo_text : string
}.
Definition make (title position_summary : string) (citations : list string)
    (memo_text : string) : result t :=
  validated [] {| title := title; position_summary := position_summary;
                  citations := citations; memo_text := memo_text |}.
End Memo.

Module DepreciationRecord.
Record t : Type := {
  asset_name : string;
  cost_basis : float;
  placed_in_service : date;
  method : string;
  life_years : Z;
  schedule : list dict
}.
Definition make (asset_name : string) (cost_basis : float)
    (placed_in_service : date) (method : string) (life_years : Z)
    (schedule : list dict) : result t :=
  validated
    (check_float_ge "cost_basis" cost_basis 0
     ++ check_literal "method" method ["SL"]
     ++ check_int_le "life_years" life_years 40
     ++ check_int_ge "life_years" life_years 1)
    {| asset_name := asset_name; cost_basis := cost_basis;
       placed_in_service := placed_in_service; method := method;
       life_years := life_years; schedule := schedule |}.
End DepreciationRecord.

Module HarvestPlan.
Record t : Type := {
  portfolio_name : string;
  threshold : float;
  positions_reviewed : Z;
  candidates : list dict
}.
Definition make (portfolio_name : string) (threshold : float)
    (positions_reviewed : Z) (candidates : list dict) : result t :=
  validated
    (check_float_ge "threshold" threshold 0
     ++ check_int_ge "positions_reviewed" positions_reviewed 0)
    {| portfolio_name := portfolio_name; threshold := threshold;
       positions_reviewed := positions_reviewed; candidates := candidates |}.
End HarvestPlan.

(** ** main.py: request models *)

Module DepreciationInput.
Record t : Type := {
  asset_name : string;
  cost_basis : float;
  placed_in_service : date;
  life_years : Z
}.
Definition make (asset_name : string) (cost_basis : float)
    (placed_in_service : date) (life_years : Z) : result t :=
  validated
    (check_float_ge "cost_basis" cost_basis 0
     ++ check_int_le "life_years" life_years 40
     ++ check_int_ge "life_years" life_years 1)
    {| asset_name := asset_name; cost_basis := cost_basis;
       placed_in_service := placed_in_service; life_years := life_years |}.
End DepreciationInput.

Module HarvestInput.
Record t : Type := {
  portfolio_name : string;
  positions : list dict;
  threshold : float
}.
(** [threshold] is optional in the request and defaults to [500.0]; it
    carries no constraint here. *)
Definition make (portfolio_name : string) (positions : list dict)
    (threshold : option float) : result t :=
  validated [] {| portfolio_name := portfolio_name; positions := positions;
                  threshold := default (of_Z 500) threshold |}.
End HarvestInput.

Module MemoInput.
Record t : Type := { title : string; position_summary : string }.
Definition make (title position_summary : string) : result t :=
  validated [] {| title := title; position_summary := position_summary |}.
End MemoInput.

Module ExpenseInput.
Record t : Type := { category : string; amount : float }.
Definition make (category : string) (amount : float) : result t :=
  validated [] {| category := category; amount := amount |}.
End ExpenseInput.

(** ** main.py: the calculators *)

(** [x / n] for a float [x] and an int [n]. *)
Definition float_truediv_int (x : float) (n : Z) : result float :=
  y ← of_int n;
  if is_zero y then Raise ZeroDivisionError else Ok (fdiv x y).

(** The dict [{"year": y, "amount": a}] of one schedule line. *)
Definition schedule_entry (y : Z) (a : float) : dict :=
  {[ "year" := JInt y; "amount" := JFloat a ]}.

(** [range(n)] *)
Definition range (n : Z) : list Z := seqZ 0 n.

Definition calculate_depreciation (payload : DepreciationInput.t)
    : result DepreciationRecord.t :=
  quotient ← float_truediv_int (DepreciationInput.cost_basis payload)
                               (DepreciationInput.life_years payload);
  let annual := round2 quotient in
  let schedule :=
    fold_left (fun schedule year => schedule ++ [schedule_entry (year + 1) annual])
              (range (DepreciationInput.life_years payload)) [] in
  DepreciationRecord.make
    (DepreciationInput.asset_name payload)
    (DepreciationInput.cost_basis payload)
    (DepreciationInput.placed_in_service payload)
    "SL"
    (DepreciationInput.life_years payload)
    schedule.

Definition harvest_note : string :=
  "Loss exceeds threshold. Confirm wash sale windows before execution.".

(** The dict appended for a position that is a candidate. *)
Definition candidate_entry (p : dict) (unrealized : float) : dict :=
  {[ "symbol" := get p "symbol";
     "unrealized" := JFloat unrealized;
     "note" := JStr harvest_note ]}.

Section Scanner.
Context `{PyBuiltins}.

(** The body of the loop over [payload.positions]. *)
Definition scan_position (threshold : float) (candidates : list dict)
    (p : dict) : result (list dict) :=
  cb ← to_float (get_default p "cost_basis" (JInt 0));
  cp ← to_float (get_default p "current_price" (JInt 0));
  qty ← to_float (get_default p "quantity" (JInt 0));
  let unrealized := round2 (fmul (fsub cp cb) qty) in
  if flt unrealized (fneg (fabs threshold))
  then Ok (candidates ++ [candidate_entry p unrealized])
  else Ok candidates.

Definition scan_tax_loss_harvest (payload : HarvestInput.t)
    : result HarvestPlan.t :=
  candidates ← for_each (scan_position (HarvestInput.threshold payload))
                        (HarvestInput.positions payload) [];
  HarvestPlan.make
    (HarvestInput.portfolio_name payload)
    (HarvestInput.threshold payload)
    (Z.of_nat (length (HarvestInput.positions payload)))
    candidates.

End Scanner.

Definition nl : string := String "010" "".

Definition generate_defense_memo (payload : MemoInput.t) : result Memo.t :=
  let memo_text :=
    "Position: " +:+ MemoInput.title payload +:+ nl +:+ nl
    +:+ "Summary: " +:+ MemoInput.position_summary payload +:+ nl +:+ nl
    +:+ "Rationale: This position is taken based on commonly accepted interpretations "
    +:+ "of applicable tax rules and administrative guidance. The taxpayer has a good-"
    +:+ "faith basis and has maintained contemporaneous records." +:+ nl +:+ nl
    +:+ "Citations: [Add statute/reg cite placeholders here]." +:+ nl +:+ nl
    +:+ "Disclosure: Where required, the position will be properly disclosed to the tax authority." in
  Memo.make (MemoInput.title payload) (MemoInput.position_summary payload) []
            memo_text.

Definition writeoff_categories : gset string :=
  {[ "home office"; "r&d"; "depreciation"; "mileage" ]}.

Definition writeoff_hint : string :=
  "Potential deduction – ensure substantiation.".

(** The dict [{"category": c, "hint": ...}] of one flag. *)
Definition flag_entry (category : string) : dict :=
  {[ "category" := JStr category; "hint" := JStr writeoff_hint ]}.

Section Writeoffs.
Context `{PyBuiltins}.

Definition is_writeoff (e : ExpenseInput.t) : bool :=
  bool_decide (lower (ExpenseInput.category e) ∈ writeoff_categories).

(** The loop body: [(flags, total)] are the two locals it updates. *)
Definition writeoff_step (st : list dict * float) (e : ExpenseInput.t)
    : list dict * float :=
  let '(flags, total) := st in
  let total := fadd total (ExpenseInput.amount e) in
  if is_writeoff e
  then (flags ++ [flag_entry (ExpenseInput.category e)], total)
  else (flags, total).

Definition writeoff_flags (expenses : list ExpenseInput.t) : dict :=
  let '(flags, total) :=
    fold_left writeoff_step expenses ([], S754_zero false) in
  {[ "total_reviewed" := JFloat (round2 total);
     "flags" := JList (JDict <$> flags) ]}.

End Writeoffs.

(** * Terms of the specification *)

(** ** Depreciation *)

(** The amount of every year: [round(cost_basis / life_years, 2)]. *)
Definition annual_amount (C : float) (L : Z) : float :=
  round2 (fdiv C (of_Z L)).

(** The amounts of a schedule, read from its entries. *)
Definition entry_amount (entry : dict) : float :=
  match entry !! "amount" with
  | Some (JFloat a) => a
  | _ => S754_nan
  end.

(** The exact sum of the amounts of a schedule. *)
Definition schedule_total (schedule : list dict) : Q :=
  fold_right (fun entry acc => (F2Q (entry_amount entry) + acc)%Q) 0%Q schedule.

(** 0.005 *)
Definition half_cent : Q := 5 # 1000.

(** [float(L)] is exact and not zero. *)
Definition life_ok (L : Z) : bool :=
  match of_int L with
  | Ok y => negb (is_zero y) && bool_decide (y = of_Z L)
  | Raise _ => false
  end.

(** [of_Z L] is the positive double of value [L]. *)
Definition life_exact (L : Z) : bool :=
  match of_Z L with
  | S754_finite false m e => Qeq_bool (inject_Z (Zpos m) * 2 ^ e)%Q (inject_Z L)
  | _ => false
  end.

(** A cost basis of 0.125 over 1 year. *)
Definition eighth_payload : DepreciationInput.t :=
  {| DepreciationInput.asset_name := "stamp";
     DepreciationInput.cost_basis := of_ratio false 1 8;
     DepreciationInput.placed_in_service := {| year := 2024; month := 1; day := 2 |};
     DepreciationInput.life_years := 1 |}.

(** A cost basis of 10^17 over 3 years. *)
Definition large_payload : DepreciationInput.t :=
  {| DepreciationInput.asset_name := "plant";
     DepreciationInput.cost_basis := of_Z (10 ^ 17);
     DepreciationInput.placed_in_service := {| year := 2024; month := 1; day := 2 |};
     DepreciationInput.life_years := 3 |}.

(** ** Harvest scanner *)


Section ScannerTerms.
Context `{PyBuiltins}.

(** The three conversions and the rounding that the loop body does for one
    position. *)
Definition position_unrealized (p : dict) : result float :=
  cb ← to_float (get_default p "cost_basis" (JInt 0));
  cp ← to_float (get_default p "current_price" (JInt 0));
  qty ← to_float (get_default p "quantity" (JInt 0));
  Ok (round2 (fmul (fsub cp cb) qty)).

(** The test of the loop body: [unrealized < -abs(threshold)]. *)
Definition is_loss (threshold unrealized : float) : bool :=
  flt unrealized (fneg (fabs threshold)).

(** What a position adds to [candidates], if anything. *)
Definition candidate_of (threshold : float) (p : dict) : option dict :=
  match position_unrealized p with
  | Ok u => if is_loss threshold u then Some (candidate_entry p u) else None
  | Raise _ => None
  end.

(** The three fields of [p] pass [float()]. *)
Definition converts (p : dict) : Prop :=
  exists u, position_unrealized p = Ok u.


End ScannerTerms.

(** The position of the specification's example: bought at 100, now at 40,
    10 units. *)
Definition example_position : dict :=
  {[ "cost_basis" := JInt 100; "current_price" := JInt 40; "quantity" := JInt 10 ]}.

(** The example position and a position with no field at all, threshold
    500. *)
Definition example_payload : HarvestInput.t :=
  {| HarvestInput.portfolio_name := "main";
     HarvestInput.positions := [example_position; ∅];
     HarvestInput.threshold := of_Z 500 |}.

(** The plan for [example_payload]: one candidate, a loss of 600. *)
Definition example_plan : HarvestPlan.t :=
  {| HarvestPlan.portfolio_name := "main";
     HarvestPlan.threshold := of_Z 500;
     HarvestPlan.positions_reviewed := 2;
     HarvestPlan.candidates :=
       [ {[ "symbol" := JNull; "unrealized" := JFloat (of_Z (-600));
            "note" := JStr harvest_note ]} ] |}.

(** A loss of 500.00390625 (= 128001/256, exact in binary) on one unit. *)
Definition small_loss_position : dict :=
  {[ "cost_basis" := JFloat (of_ratio false 128001 256);
     "current_price" := JInt 0; "quantity" := JInt 1 ]}.

(** That position against a threshold of 500. *)
Definition small_loss_payload : HarvestInput.t :=
  {| HarvestInput.portfolio_name := "main";
     HarvestInput.positions := [small_loss_position];
     HarvestInput.threshold := of_Z 500 |}.

(** A scan with threshold -1. *)
Definition negative_threshold_payload : HarvestInput.t :=
  {| HarvestInput.portfolio_name := "main";
     HarvestInput.positions := [example_position];
     HarvestInput.threshold := of_Z (-1) |}.

(** ** Memo generator *)

(** The text of a memo, from the title and the summary. *)
Definition memo_template (title summary : string) : string :=
  "Position: " +:+ title +:+ nl +:+ nl
  +:+ "Summary: " +:+ summary +:+ nl +:+ nl
  +:+ "Rationale: This position is taken based on commonly accepted interpretations "
  +:+ "of applicable tax rules and administrative guidance. The taxpayer has a good-"
  +:+ "faith basis and has maintained contemporaneous records." +:+ nl +:+ nl
  +:+ "Citations: [Add statute/reg cite placeholders here]." +:+ nl +:+ nl
  +:+ "Disclosure: Where required, the position will be properly disclosed to the tax authority.".

(** ** Rounding to a double *)

(** The position of [P / W] relative to [m], [m + 1/2] and [m + 1], as the
    round and sticky bits record it. *)
Definition located (P W m : Z) (rb sb : bool) : Prop :=
  match rb, sb with
  | false, false => P = m * W
  | false, true => m * W < P /\ 2 * P < (2 * m + 1) * W
  | true, false => 2 * P = (2 * m + 1) * W
  | true, true => (2 * m + 1) * W < 2 * P /\ P < (m + 1) * W
  end.

(** What [k] right shifts keep: the position of [P / W], now in units of
    [2^k], and the bits of [m0] above the [k] lowest. *)
Definition shr_inv (P W m0 k : Z) (mrs : shr_record) : Prop :=
  located P (2 ^ k * W) (shr_m mrs) (shr_r mrs) (shr_s mrs)
  /\ 0 <= shr_m mrs
  /\ 2 ^ k * shr_m mrs <= m0 < 2 ^ k * (shr_m mrs + 1).

(** The round and sticky bits of a location. *)
Definition loc_bits (l : location) : bool * bool :=
  match l with
  | loc_Exact => (false, false)
  | loc_Inexact Lt => (false, true)
  | loc_Inexact Eq => (true, false)
  | loc_Inexact Gt => (true, true)
  end.

(** The first integer with 54 bits. *)
Definition two53 : Z := 2 ^ 53.

(** The float that [binary_round_aux] builds from the rounded mantissa
    [m1] at the exponent [e1]. *)
Definition pack (s : bool) (m1 e1 : Z) : spec_float :=
  if m1 =? 0 then S754_zero s
  else if m1 <? two53
       then (if e1 <=? 971 then S754_finite s (Z.to_pos m1) e1 else S754_infinity s)
       else (if e1 + 1 <=? 971 then S754_finite s (Z.to_pos (2 ^ 52)) (e1 + 1)
             else S754_infinity s).

(** Division of two positive mantissas, rounded: the body that [fdiv] and
    [of_ratio] share. *)
Definition div_round (s : bool) (m1 : positive) (e1 : Z) (m2 : positive) (e2 : Z)
    : spec_float :=
  let '(mz, ez, lz) := SFdiv_core_binary prec emax (Zpos m1) e1 (Zpos m2) e2 in
  binary_round_aux prec emax s mz ez lz.

(** A nonnegative float in range: [+0.0] or a positive finite double. *)
Definition in_range (v : spec_float) : Prop :=
  match v with
  | S754_zero s => s = false
  | S754_finite s m e => s = false /\ Zpos m < two53 /\ -1074 <= e <= 971
  | _ => False
  end.

(** The quotient of two positive mantissas with their exponents. *)
Definition quotient (m1 : positive) (e1 : Z) (m2 : positive) (e2 : Z) : Q :=
  ((inject_Z (Zpos m1) * 2 ^ e1) / (inject_Z (Zpos m2) * 2 ^ e2))%Q.

(** The largest double. *)
Definition Fmax : Q := (inject_Z (2 ^ 53 - 1) * 2 ^ 971)%Q.

Ltac qconst t := let c := eval vm_compute in t in change t with c in *.

(** ** The arithmetic in the specification's words *)

(** [n] is [x] in cents, rounded: the integer nearest to [100 * x], the
    even one when two are as near. *)
Definition rounds_to_cents (x : Q) (n : Z) : Prop :=
  (Qabs (inject_Z n - 100 * x) <= 1 # 2)%Q
  /\ ((Qabs (inject_Z n - 100 * x) == 1 # 2)%Q -> Z.even n = true).

(** [a] is a double nearest to the number [r]: no finite double is nearer. *)
Definition nearest_double (r : Q) (a : float) : Prop :=
  valid_binary prec emax a = true
  /\ is_finite a = true
  /\ forall b : float,
       valid_binary prec emax b = true -> is_finite b = true ->
       (Qabs (F2Q a - r) <= Qabs (F2Q b - r))%Q.

(** [a] is [round(x, 2)]: [x] itself when [x] is NaN or infinite, and
    otherwise a double nearest to the two-decimal number [n / 100], where
    [n] is [x] rounded to cents. *)
Definition spec_round2 (x a : float) : Prop :=
  if is_finite x
  then exists n : Z,
         rounds_to_cents (F2Q x) n /\ nearest_double (inject_Z n / 100)%Q a
  else a = x.

(** [q] is [C / L] for a float [C] and a positive int [L]: a double nearest
    to the exact quotient, and [C] itself when [C] is NaN or infinite. *)
Definition spec_quotient (C : float) (L : Z) (q : float) : Prop :=
  if is_finite C
  then nearest_double (F2Q C / inject_Z L)%Q q
  else q = C.

(** A cost basis of 1000 over 3 years: the quotient is no two-decimal
    number. *)
Definition thousand_payload : DepreciationInput.t :=
  {| DepreciationInput.asset_name := "laptop";
     DepreciationInput.cost_basis := of_Z 1000;
     DepreciationInput.placed_in_service := {| year := 2024; month := 3; day := 1 |};
     DepreciationInput.life_years := 3 |}.

(** ** Write-off flags in the specification's words *)

(** The fixed category set. *)
Definition writeoff_words : list string :=
  ["home office"; "r&d"; "depreciation"; "mileage"].

(** Two characters that are the same up to letter case: equal, or one is
    an ASCII capital, [A] (65) to [Z] (90), and the other its small letter,
    32 further. *)
Definition same_letter (a b : ascii) : bool :=
  let x := nat_of_ascii a in
  let y := nat_of_ascii b in
  ((x =? y) || ((65 <=? x) && (x <=? 90) && (y =? x + 32))
   || ((65 <=? y) && (y <=? 90) && (x =? y + 32)))%nat.

(** Two texts that are the same up to letter case, character by
    character. *)
Fixpoint same_text (s k : string) : bool :=
  match s, k with
  | EmptyString, EmptyString => true
  | String a s', String b k' => same_letter a b && same_text s' k'
  | _, _ => false
  end.

(** A text of ASCII characters only. *)
Definition ascii_text (s : string) : bool :=
  forallb (fun c => (nat_of_ascii c <? 128)%nat) (list_ascii_of_string s).

(** A category that is in the fixed set, letter case apart. For a text
    with a character outside ASCII the case mapping is the Unicode one of
    the built-ins. *)
Definition flagged `{PyBuiltins} (category : string) : bool :=
  if ascii_text category
  then existsb (same_text category) writeoff_words
  else existsb (String.eqb (unicode_lower category)) writeoff_words.

(** Three expenses: two of the set in other letter cases, one outside. *)
Definition mixed_case_expenses : list ExpenseInput.t :=
  [ {| ExpenseInput.category := "R&D"; ExpenseInput.amount := of_Z 1999 |};
    {| ExpenseInput.category := "Travel"; ExpenseInput.amount := of_Z 80 |};
    {| ExpenseInput.category := "home OFFICE"; ExpenseInput.amount := of_Z (-5) |} ].

(** * The rest of main.py and schemas.py *)

(** ** The routes, as the framework calls them *)

(** [POST /api/depreciation/calc]: the body is validated as a
    [DepreciationInput] and handed to [calculate_depreciation]. *)
Definition post_depreciation_calc (asset_name : string) (cost_basis : float)
    (placed_in_service : date) (life_years : Z) : result DepreciationRecord.t :=
  payload ← DepreciationInput.make asset_name cost_basis placed_in_service life_years;
  calculate_depreciation payload.

(** The fields of a record, validated again as a [DepreciationRecord]: what
    [POST /api/depreciation/save] does with its body. *)
Definition revalidate_record (record : DepreciationRecord.t)
    : result DepreciationRecord.t :=
  DepreciationRecord.make
    (DepreciationRecord.asset_name record)
    (DepreciationRecord.cost_basis record)
    (DepreciationRecord.placed_in_service record)
    (DepreciationRecord.method record)
    (DepreciationRecord.life_years record)
    (DepreciationRecord.schedule record).

(** The record that [calculate_depreciation] returns for
    [eighth_payload]. *)
Definition eighth_record : DepreciationRecord.t :=
  {| DepreciationRecord.asset_name := "stamp";
     DepreciationRecord.cost_basis := of_ratio false 1 8;
     DepreciationRecord.placed_in_service := {| year := 2024; month := 1; day := 2 |};
     DepreciationRecord.method := "SL";
     DepreciationRecord.life_years := 1;
     DepreciationRecord.schedule := [schedule_entry 1 (of_ratio false 12 100)] |}.

(** ** schemas.py: the user profile *)

(** pydantic's [EmailStr], checked by the email-validator package, which is
    no part of the repository: the address as it is normalized, or [None]
    when it is rejected. *)
Class EmailValidator : Type := {
  validate_email : string -> option string
}.

(** An instance to evaluate the functions: an address is kept as it is
    when it has an at sign. *)
Definition at_sign_validator : EmailValidator :=
  {| validate_email := fun s =>
       if existsb (Ascii.eqb "@") (list_ascii_of_string s) then Some s else None |}.

Module UserProfile.

Record t : Type := {
  full_name : string;
  email : string;
  country : string;
  filing_status : string;
  employment_type : string;
  entities : list string;
  risk_tolerance : string
}.

Definition filing_statuses : list string :=
  ["single"; "married_joint"; "married_separate"; "head_of_household"].

Definition employment_types : list string :=
  ["salaried"; "self_employed"; "business_owner"; "creator"; "consultant"].

Definition risk_tolerances : list string := ["low"; "medium"; "high"].

(** What the constructor gives: the profile, or a [ValidationError], of
    which is kept whether it has a line for [email] (it comes first) and
    the lines for the [Literal] fields, in field order. *)
Inductive outcome : Type :=
| Accepted (profile : t)
| Rejected (email_line : bool) (errors : list field_error).

(** [entities] and [risk_tolerance] may be left out: they default to [[]]
    and to "medium", and a default is not checked. *)
Definition make `{EmailValidator} (full_name email country filing_status
    employment_type : string) (entities : option (list string))
    (risk_tolerance : option string) : outcome :=
  let errors :=
    check_literal "filing_status" filing_status filing_statuses
    ++ check_literal "employment_type" employment_type employment_types
    ++ match risk_tolerance with
       | Some r => check_literal "risk_tolerance" r risk_tolerances
       | None => []
       end in
  match validate_email email, errors with
  | Some address, [] =>
      Accepted {| full_name := full_name; email := address; country := country;
                  filing_status := filing_status;
                  employment_type := employment_type;
                  entities := default [] entities;
                  risk_tolerance := default "medium" risk_tolerance |}
  | Some _, _ => Rejected false errors
  | None, _ => Rejected true errors
  end.

End UserProfile.

(** ** main.py: the health check *)

(** A byte that continues a UTF-8 character. *)
Definition is_continuation (c : ascii) : bool :=
  ((128 <=? nat_of_ascii c) && (nat_of_ascii c <? 192))%nat.

(** [s[:n]]: the first [n] characters of a text held as UTF-8 bytes. *)
Fixpoint take_chars (n : nat) (s : string) : string :=
  match s with
  | EmptyString => EmptyString
  | String c s' =>
      if is_continuation c then String c (take_chars n s')
      else match n with
           | O => EmptyString
           | S n' => String c (take_chars n' s')
           end
  end.

(** [len(s)]: the characters of a text held as UTF-8 bytes. *)
Fixpoint count_chars (s : string) : nat :=
  match s with
  | EmptyString => O
  | String c s' =>
      if is_continuation c then count_chars s' else S (count_chars s')
  end.

(** The module-level [db] handle of the absent [database] module, as the
    health check uses it: [None], or a database whose
    [list_collection_names()] returns the names or raises an exception
    with the text [str(e)]. *)
Inductive listing : Type :=
| Names (collections : list string)
| Fails (message : string).

(** ["✅ Set" if os.getenv(name) else "❌ Not Set"] *)
Definition env_flag (env : gmap string string) (name : string) : json :=
  match env !! name with
  | Some (String _ _) => JStr "✅ Set"
  | _ => JStr "❌ Not Set"
  end.

Definition test_database (db : option listing) (env : gmap string string) : dict :=
  let response : dict :=
    {[ "backend" := JStr "✅ Running";
       "database" := JStr "❌ Not Available";
       "database_url" := env_flag env "DATABASE_URL";
       "database_name" := env_flag env "DATABASE_NAME";
       "connection_status" := JStr "Not Connected";
       "collections" := JList [] ]} in
  match db with
  | Some handle =>
      let response := <["database" := JStr "✅ Available"]> response in
      match handle with
      | Names collections =>
          let response :=
            <["collections" := JList (JStr <$> take 10 collections)]> response in
          let response := <["connection_status" := JStr "Connected"]> response in
          <["database" := JStr "✅ Connected & Working"]> response
      | Fails message =>
          <["database" := JStr ("⚠️ Connected but Error: " +:+ take_chars 80 message)]> response
      end
  | None => <["database" := JStr "⚠️ Available but not initialized"]> response
  end.

(** ** Requests for the examples *)

(** A position whose [cost_basis] is null. *)
Definition null_cost_position : dict := {[ "cost_basis" := JNull ]}.

(** The example position, then the null one, then an empty one, with
    threshold -1. *)
Definition broken_payload : HarvestInput.t :=
  {| HarvestInput.portfolio_name := "main";
     HarvestInput.positions := [example_position; null_cost_position; ∅];
     HarvestInput.threshold := of_Z (-1) |}.

(** A scan request with a threshold below zero and one position whose
    [cost_basis] is null. *)
Definition null_cost_payload : HarvestInput.t :=
  {| HarvestInput.portfolio_name := "main";
     HarvestInput.positions := [null_cost_position];
     HarvestInput.threshold := of_Z (-1) |}.

(** The plan for the positions of [example_payload] under threshold 1000:
    the loss of 600 is no candidate. *)
Definition high_threshold_plan : HarvestPlan.t :=
  {| HarvestPlan.portfolio_name := "main";
     HarvestPlan.threshold := of_Z 1000;
     HarvestPlan.positions_reviewed := 2;
     HarvestPlan.candidates := [] |}.

(** An expense without a number for its amount. *)
Definition nan_expense : ExpenseInput.t :=
  {| ExpenseInput.category := "Mileage"; ExpenseInput.amount := S754_nan |}.

(** * Properties *)

(** ** Loops as list operations *)

Lemma fold_left_append {A B : Type} (f : A -> B) (items : list A) (acc : list B) :
  fold_left (fun acc x => acc ++ [f x]) items acc = acc ++ (f <$> items).
Proof.
  revert acc. induction items as [|x items IH]; intros acc; simpl.
  - by rewrite app_nil_r.
  - rewrite IH. by rewrite <- app_assoc.
Qed.

Lemma validated_nil {A : Type} (a : A) : validated [] a = Ok a.
Proof. reflexivity. Qed.

Lemma validated_errors {A : Type} (errors : list field_error) (a : A) :
  errors <> [] -> validated errors a = Raise (ValidationError errors).
Proof. destruct errors; [congruence | reflexivity]. Qed.

(** ** Small integers as floats *)

Lemma life_ok_all : forallb life_ok (seqZ 1 40) = true.
Proof. vm_compute. reflexivity. Qed.

Lemma of_int_life (L : Z) :
  1 <= L <= 40 -> of_int L = Ok (of_Z L) /\ is_zero (of_Z L) = false.
Proof.
  intros HL.
  assert (Hin : In L (seqZ 1 40)).
  { apply list_elem_of_In, elem_of_seqZ. lia. }
  pose proof (proj1 (forallb_forall life_ok (seqZ 1 40)) life_ok_all L Hin) as Hok.
  unfold life_ok in Hok. destruct (of_int L) as [y|e]; [|discriminate].
  apply andb_prop in Hok as [Hz Hy].
  apply bool_decide_eq_true in Hy. subst y.
  split; [reflexivity|]. by apply negb_true_iff.
Qed.

Lemma float_truediv_life (x : float) (L : Z) :
  1 <= L <= 40 -> float_truediv_int x L = Ok (fdiv x (of_Z L)).
Proof.
  intros HL. destruct (of_int_life L HL) as [Hi Hz].
  unfold float_truediv_int. rewrite Hi. simpl. by rewrite Hz.
Qed.

(** ** Depreciation calculator *)

Lemma calculate_depreciation_valid (payload : DepreciationInput.t) :
  fge (DepreciationInput.cost_basis payload) (of_Z 0) = true ->
  1 <= DepreciationInput.life_years payload <= 40 ->
  calculate_depreciation payload =
    Ok {| DepreciationRecord.asset_name := DepreciationInput.asset_name payload;
          DepreciationRecord.cost_basis := DepreciationInput.cost_basis payload;
          DepreciationRecord.placed_in_service :=
            DepreciationInput.placed_in_service payload;
          DepreciationRecord.method := "SL";
          DepreciationRecord.life_years := DepreciationInput.life_years payload;
          DepreciationRecord.schedule :=
            (fun year => schedule_entry (year + 1)
               (annual_amount (DepreciationInput.cost_basis payload)
                              (DepreciationInput.life_years payload)))
            <$> seqZ 0 (DepreciationInput.life_years payload) |}.
Proof.
  intros HC HL. unfold calculate_depreciation.
  rewrite (float_truediv_life _ _ HL). simpl.
  rewrite fold_left_append. simpl.
  unfold DepreciationRecord.make, check_float_ge, check_int_le, check_int_ge.
  change (check_literal "method" "SL" ["SL"]) with (@nil field_error).
  rewrite HC.
  destruct (Z.leb_spec (DepreciationInput.life_years payload) 40); [|lia].
  destruct (Z.leb_spec 1 (DepreciationInput.life_years payload)); [|lia].
  reflexivity.
Qed.

(** ** Harvest scanner *)

Section ScannerFacts.
Context `{PyBuiltins}.

Lemma scan_position_unfold (threshold : float) (candidates : list dict) (p : dict) :
  scan_position threshold candidates p =
    (u ← position_unrealized p;
     Ok (if is_loss threshold u then candidates ++ [candidate_entry p u]
         else candidates)).
Proof.
  unfold scan_position, position_unrealized, is_loss.
  destruct (to_float (get_default p "cost_basis" (JInt 0))) as [cb|]; [|reflexivity].
  destruct (to_float (get_default p "current_price" (JInt 0))) as [cp|]; [|reflexivity].
  destruct (to_float (get_default p "quantity" (JInt 0))) as [qty|]; [|reflexivity].
  simpl. destruct (flt _ _); reflexivity.
Qed.

Lemma scan_position_ok (threshold : float) (candidates : list dict) (p : dict) (u : float) :
  position_unrealized p = Ok u ->
  scan_position threshold candidates p
  = Ok (candidates ++ option_list (candidate_of threshold p)).
Proof.
  intros Hu. rewrite scan_position_unfold. unfold candidate_of. rewrite Hu. simpl.
  destruct (is_loss threshold u); simpl; [reflexivity | by rewrite app_nil_r].
Qed.

(** The loop succeeds exactly when every position converts, and then it
    has appended the candidates in the order of the positions. *)
Lemma scan_loop_ok (threshold : float) (positions : list dict) (acc : list dict) :
  Forall converts positions ->
  for_each (scan_position threshold) positions acc
  = Ok (acc ++ omap (candidate_of threshold) positions).
Proof.
  revert acc. induction positions as [|p positions IH]; intros acc Hall; simpl.
  - by rewrite app_nil_r.
  - inversion Hall as [|? ? [u Hu] Hrest]; subst.
    rewrite (scan_position_ok _ _ _ _ Hu). simpl.
    rewrite (IH _ Hrest). f_equal.
    rewrite <- app_assoc. f_equal.
    destruct (candidate_of threshold p); reflexivity.
Qed.

Lemma scan_loop_inv (threshold : float) (positions : list dict)
    (acc candidates : list dict) :
  for_each (scan_position threshold) positions acc = Ok candidates ->
  Forall converts positions.
Proof.
  revert acc. induction positions as [|p positions IH]; intros acc Hrun.
  - constructor.
  - simpl in Hrun. rewrite scan_position_unfold in Hrun.
    destruct (position_unrealized p) as [u|e] eqn:Hu; [|discriminate].
    simpl in Hrun. constructor; [by exists u | by eapply IH].
Qed.

Lemma harvest_plan_make (name : string) (threshold : float) (n : nat)
    (candidates : list dict) :
  HarvestPlan.make name threshold (Z.of_nat n) candidates =
    if fge threshold (of_Z 0)
    then Ok {| HarvestPlan.portfolio_name := name;
               HarvestPlan.threshold := threshold;
               HarvestPlan.positions_reviewed := Z.of_nat n;
               HarvestPlan.candidates := candidates |}
    else Raise (ValidationError [("threshold", Ge 0)]).
Proof.
  unfold HarvestPlan.make, check_float_ge, check_int_ge.
  destruct (Z.leb_spec 0 (Z.of_nat n)); [|lia].
  destruct (fge threshold (of_Z 0)); reflexivity.
Qed.

(** Every plan the scanner returns, in closed form. *)
Lemma scan_returns (payload : HarvestInput.t) (plan : HarvestPlan.t) :
  scan_tax_loss_harvest payload = Ok plan ->
  fge (HarvestInput.threshold payload) (of_Z 0) = true
  /\ Forall converts (HarvestInput.positions payload)
  /\ plan = {| HarvestPlan.portfolio_name := HarvestInput.portfolio_name payload;
               HarvestPlan.threshold := HarvestInput.threshold payload;
               HarvestPlan.positions_reviewed :=
                 Z.of_nat (length (HarvestInput.positions payload));
               HarvestPlan.candidates :=
                 omap (candidate_of (HarvestInput.threshold payload))
                      (HarvestInput.positions payload) |}.
Proof.
  unfold scan_tax_loss_harvest. intros Hrun.
  destruct (for_each _ _ _) as [candidates|e] eqn:Hloop; [|discriminate].
  pose proof (scan_loop_inv _ _ _ _ Hloop) as Hall.
  rewrite (scan_loop_ok _ _ _ Hall) in Hloop. simpl in Hloop.
  injection Hloop as <-. simpl in Hrun.
  rewrite harvest_plan_make in Hrun.
  destruct (fge _ _); [|discriminate].
  injection Hrun as <-. auto.
Qed.

(** The scanner does return when the threshold is valid and every
    position converts. *)
Lemma scan_total (payload : HarvestInput.t) :
  fge (HarvestInput.threshold payload) (of_Z 0) = true ->
  Forall converts (HarvestInput.positions payload) ->
  exists plan, scan_tax_loss_harvest payload = Ok plan.
Proof.
  intros HT Hall. unfold scan_tax_loss_harvest.
  rewrite (scan_loop_ok _ _ _ Hall). simpl.
  rewrite harvest_plan_make, HT. eauto.
Qed.

End ScannerFacts.

Lemma candidate_entry_symbol (p : dict) (u : float) :
  candidate_entry p u !! "symbol" = Some (get p "symbol").
Proof. unfold candidate_entry. by simplify_map_eq. Qed.

Lemma candidate_entry_unrealized (p : dict) (u : float) :
  candidate_entry p u !! "unrealized" = Some (JFloat u).
Proof. unfold candidate_entry. by simplify_map_eq. Qed.

Lemma candidate_entry_note (p : dict) (u : float) :
  candidate_entry p u !! "note" = Some (JStr harvest_note).
Proof. unfold candidate_entry. by simplify_map_eq. Qed.

(** For a threshold [T >= 0], [-abs(T)] and [-T] compare alike. *)
Lemma is_loss_nonneg (T u : float) :
  fge T (of_Z 0) = true -> flt u (fneg (fabs T)) = flt u (fneg T).
Proof.
  destruct T as [[]|[]| |[] m e]; try discriminate; try reflexivity;
    destruct u as [[]|[]| |[] m' e']; reflexivity.
Qed.

Lemma omap_length_le {A B : Type} (f : A -> option B) (l : list A) :
  (length (omap f l) <= length l)%nat.
Proof.
  induction l as [|x l IH]; csimpl; [lia|].
  destruct (f x); simpl; lia.
Qed.

Section ScannerClaims.
Context `{PyBuiltins}.



Lemma position_unrealized_inv (p : dict) (u : float) :
  position_unrealized p = Ok u ->
  exists cb cp qty,
    to_float (get_default p "cost_basis" (JInt 0)) = Ok cb
    /\ to_float (get_default p "current_price" (JInt 0)) = Ok cp
    /\ to_float (get_default p "quantity" (JInt 0)) = Ok qty
    /\ u = round2 (fmul (fsub cp cb) qty).
Proof.
  unfold position_unrealized.
  destruct (to_float (get_default p "cost_basis" (JInt 0))) as [cb|]; [|discriminate].
  destruct (to_float (get_default p "current_price" (JInt 0))) as [cp|]; [|discriminate].
  destruct (to_float (get_default p "quantity" (JInt 0))) as [qty|]; [|discriminate].
  simpl. intros [= <-]. by exists cb, cp, qty.
Qed.

(** C2, as the code has it. For a threshold [T >= 0], every plan the
    scanner returns counts all the positions, and the entry of a position
    is among the candidates if and only if the rounded amount
    [round((current_price - cost_basis) * quantity, 2)] is below [-T]. *)
Theorem C2_candidate_iff_rounded_loss (payload : HarvestInput.t) (plan : HarvestPlan.t) :
  fge (HarvestInput.threshold payload) (of_Z 0) = true ->
  scan_tax_loss_harvest payload = Ok plan ->
  HarvestPlan.positions_reviewed plan
  = Z.of_nat (length (HarvestInput.positions payload))
  /\ forall p : dict, p ∈ HarvestInput.positions payload ->
       exists cb cp qty,
         to_float (get_default p "cost_basis" (JInt 0)) = Ok cb
         /\ to_float (get_default p "current_price" (JInt 0)) = Ok cp
         /\ to_float (get_default p "quantity" (JInt 0)) = Ok qty
         /\ (candidate_entry p (round2 (fmul (fsub cp cb) qty))
               ∈ HarvestPlan.candidates plan
             <-> flt (round2 (fmul (fsub cp cb) qty))
                     (fneg (HarvestInput.threshold payload)) = true).
Proof.
  intros HT Hrun.
  destruct (scan_returns _ _ Hrun) as (_ & Hall & ->). simpl.
  split; [reflexivity|]. intros p Hp.
  destruct (proj1 (Forall_forall _ _) Hall p Hp) as [u Hu].
  destruct (position_unrealized_inv _ _ Hu) as (cb & cp & qty & Hcb & Hcp & Hqty & ->).
  exists cb, cp, qty. repeat (split; [assumption|]).
  rewrite <- (is_loss_nonneg _ _ HT). rewrite list_elem_of_omap. split.
  - intros (p' & _ & Hcand). unfold candidate_of in Hcand.
    destruct (position_unrealized p') as [u'|]; [|discriminate].
    destruct (is_loss _ u') eqn:Hloss; [|discriminate].
    assert (Hentry : candidate_entry p' u'
                     = candidate_entry p (round2 (fmul (fsub cp cb) qty)))
      by congruence.
    assert (Heq : candidate_entry p' u' !! "unrealized"
                  = candidate_entry p (round2 (fmul (fsub cp cb) qty)) !! "unrealized")
      by (by rewrite Hentry).
    rewrite !candidate_entry_unrealized in Heq. injection Heq as ->.
    exact Hloss.
  - intros Hloss. exists p. split; [assumption|].
    unfold candidate_of. rewrite Hu. unfold is_loss. by rewrite Hloss.
Qed.

(** C8. Every plan the scanner returns counts all the input positions,
    has no more candidates than positions, lists the candidates in the
    order of the positions they come from, and gives every candidate the
    same advisory note. *)
Theorem C8_plan_invariants (payload : HarvestInput.t) (plan : HarvestPlan.t) :
  scan_tax_loss_harvest payload = Ok plan ->
  HarvestPlan.positions_reviewed plan
  = Z.of_nat (length (HarvestInput.positions payload))
  /\ Z.of_nat (length (HarvestPlan.candidates plan))
     <= HarvestPlan.positions_reviewed plan
  /\ HarvestPlan.candidates plan
     = omap (candidate_of (HarvestInput.threshold payload))
            (HarvestInput.positions payload)
  /\ Forall (fun c : dict => c !! "note" = Some (JStr harvest_note))
            (HarvestPlan.candidates plan).
Proof.
  intros Hrun. destruct (scan_returns _ _ Hrun) as (_ & _ & ->). simpl.
  split; [reflexivity|]. split.
  { pose proof (omap_length_le (candidate_of (HarvestInput.threshold payload))
                               (HarvestInput.positions payload)). lia. }
  split; [reflexivity|].
  apply Forall_forall. intros c Hc.
  apply list_elem_of_omap in Hc as (p & _ & Hcand).
  unfold candidate_of in Hcand.
  destruct (position_unrealized p) as [u|]; [|discriminate].
  destruct (is_loss _ u); [|discriminate].
  injection Hcand as <-. apply candidate_entry_note.
Qed.



(** C10. A position that qualifies and has no [symbol] key is appended as
    a candidate whose [symbol] is [None]: the loop body returns the list
    extended by that entry, and a returned plan contains it. *)
Theorem C10_missing_symbol_is_null :
  (forall (p : dict) (threshold u : float) (candidates : list dict),
      p !! "symbol" = None ->
      position_unrealized p = Ok u ->
      is_loss threshold u = true ->
      scan_position threshold candidates p
      = Ok (candidates ++ [ {[ "symbol" := JNull;
                               "unrealized" := JFloat u;
                               "note" := JStr harvest_note ]} ]))
  /\ (forall (payload : HarvestInput.t) (plan : HarvestPlan.t) (p : dict) (u : float),
        scan_tax_loss_harvest payload = Ok plan ->
        p ∈ HarvestInput.positions payload ->
        p !! "symbol" = None ->
        position_unrealized p = Ok u ->
        is_loss (HarvestInput.threshold payload) u = true ->
        exists c : dict,
          c ∈ HarvestPlan.candidates plan
          /\ c !! "symbol" = Some JNull
          /\ c !! "unrealized" = Some (JFloat u)).
Proof.
  split.
  - intros p threshold u candidates Hsym Hu Hloss.
    rewrite scan_position_unfold, Hu. simpl. rewrite Hloss.
    unfold candidate_entry, get, get_default. by rewrite Hsym.
  - intros payload plan p u Hrun Hp Hsym Hu Hloss.
    destruct (scan_returns _ _ Hrun) as (_ & _ & ->). simpl.
    exists (candidate_entry p u). split; [|split].
    + apply list_elem_of_omap. exists p. split; [assumption|].
      unfold candidate_of. by rewrite Hu, Hloss.
    + rewrite candidate_entry_symbol. unfold get, get_default. by rewrite Hsym.
    + apply candidate_entry_unrealized.
Qed.

End ScannerClaims.

(** *** The scanner on concrete requests *)

Lemma example_scan :
  @scan_tax_loss_harvest ascii_builtins example_payload = Ok example_plan.
Proof. vm_compute. reflexivity. Qed.

(** C2, as stated, fails: with threshold 500 the position
    [{cost_basis: 500.00390625, current_price: 0, quantity: 1}] has
    [(current_price - cost_basis) * quantity = -500.00390625 < -500]
    (as floats and as exact numbers), yet the plan has no candidate: the
    amount compared is the rounded [-500.0]. *)
Lemma C2_counterexample :
  @scan_tax_loss_harvest ascii_builtins small_loss_payload
  = Ok {| HarvestPlan.portfolio_name := "main";
          HarvestPlan.threshold := of_Z 500;
          HarvestPlan.positions_reviewed := 1;
          HarvestPlan.candidates := [] |}
  /\ fge (of_Z 500) (of_Z 0) = true
  /\ flt (fmul (fsub (of_Z 0) (of_ratio false 128001 256)) (of_Z 1))
         (fneg (of_Z 500)) = true
  /\ ((F2Q (of_Z 0) - F2Q (of_ratio false 128001 256)) * F2Q (of_Z 1)
       < - F2Q (of_Z 500))%Q
  /\ round2 (fmul (fsub (of_Z 0) (of_ratio false 128001 256)) (of_Z 1))
     = of_Z (-500).
Proof. repeat split; vm_compute; reflexivity. Qed.

(** The same evaluation whatever the built-ins: the request holds no text
    to parse. *)
Lemma small_loss_scan_any_builtins (B : PyBuiltins) :
  @scan_tax_loss_harvest B small_loss_payload
  = @scan_tax_loss_harvest ascii_builtins small_loss_payload.
Proof. vm_compute. reflexivity. Qed.

Lemma C2_candidate_iff_rounded_loss_witness :
  HarvestPlan.positions_reviewed example_plan
  = Z.of_nat (length (HarvestInput.positions example_payload))
  /\ forall p : dict, p ∈ HarvestInput.positions example_payload ->
       exists cb cp qty,
         @to_float ascii_builtins (get_default p "cost_basis" (JInt 0)) = Ok cb
         /\ @to_float ascii_builtins (get_default p "current_price" (JInt 0)) = Ok cp
         /\ @to_float ascii_builtins (get_default p "quantity" (JInt 0)) = Ok qty
         /\ (candidate_entry p (round2 (fmul (fsub cp cb) qty))
               ∈ HarvestPlan.candidates example_plan
             <-> flt (round2 (fmul (fsub cp cb) qty))
                     (fneg (HarvestInput.threshold example_payload)) = true).
Proof.
  apply (@C2_candidate_iff_rounded_loss ascii_builtins example_payload example_plan).
  - vm_compute. reflexivity.
  - vm_compute. reflexivity.
Defined.

Lemma C8_plan_invariants_witness :
  HarvestPlan.positions_reviewed example_plan
  = Z.of_nat (length (HarvestInput.positions example_payload))
  /\ Z.of_nat (length (HarvestPlan.candidates example_plan))
     <= HarvestPlan.positions_reviewed example_plan
  /\ HarvestPlan.candidates example_plan
     = omap (@candidate_of ascii_builtins (HarvestInput.threshold example_payload))
            (HarvestInput.positions example_payload)
  /\ Forall (fun c : dict => c !! "note" = Some (JStr harvest_note))
            (HarvestPlan.candidates example_plan).
Proof.
  apply (@C8_plan_invariants ascii_builtins example_payload example_plan).
  vm_compute. reflexivity.
Defined.



Lemma C10_missing_symbol_is_null_witness :
  @scan_position ascii_builtins (of_Z 500) [] example_position
  = Ok ([] ++ [ {[ "symbol" := JNull;
                   "unrealized" := JFloat (of_Z (-600));
                   "note" := JStr harvest_note ]} ])
  /\ exists c : dict,
       c ∈ HarvestPlan.candidates example_plan
       /\ c !! "symbol" = Some JNull
       /\ c !! "unrealized" = Some (JFloat (of_Z (-600))).
Proof.
  pose proof (@C10_missing_symbol_is_null ascii_builtins) as (Hstep & Hscan).
  split.
  - apply (Hstep example_position (of_Z 500) (of_Z (-600)) []);
      vm_compute; reflexivity.
  - apply (Hscan example_payload example_plan example_position (of_Z (-600))).
    + exact example_scan.
    + repeat constructor.
    + vm_compute. reflexivity.
    + vm_compute. reflexivity.
    + vm_compute. reflexivity.
Defined.

(** ** Write-off flag detector *)

Section WriteoffClaims.
Context `{PyBuiltins}.

(** The loop, as list operations: the flags are the mapped filter of the
    expenses, the total is the running float sum of the amounts. *)
Lemma writeoff_loop (expenses : list ExpenseInput.t) (flags : list dict) (total : float) :
  fold_left writeoff_step expenses (flags, total)
  = (flags ++ ((fun e => flag_entry (ExpenseInput.category e))
                 <$> filter (fun e => is_writeoff e = true) expenses),
     fold_left fadd (ExpenseInput.amount <$> expenses) total).
Proof.
  revert flags total.
  induction expenses as [|e expenses IH]; intros flags total; simpl.
  - by rewrite app_nil_r.
  - destruct (is_writeoff e) eqn:He; rewrite IH.
    + rewrite filter_cons_True by assumption. simpl.
      by rewrite <- app_assoc.
    + rewrite filter_cons_False by congruence. reflexivity.
Qed.

End WriteoffClaims.

(** The specification's example: Mileage 120 and Travel 80 give a total of
    200.0 and the one flag for Mileage. *)
Lemma writeoff_example :
  @writeoff_flags ascii_builtins
    [ {| ExpenseInput.category := "Mileage"; ExpenseInput.amount := of_Z 120 |};
      {| ExpenseInput.category := "Travel"; ExpenseInput.amount := of_Z 80 |} ]
  = {[ "total_reviewed" := JFloat (of_Z 200);
       "flags" := JList [JDict (flag_entry "Mileage")] ]}.
Proof. vm_compute. reflexivity. Qed.

(** ** Memo generator *)

Lemma generate_defense_memo_returns (payload : MemoInput.t) :
  generate_defense_memo payload
  = Ok {| Memo.title := MemoInput.title payload;
          Memo.position_summary := MemoInput.position_summary payload;
          Memo.citations := [];
          Memo.memo_text := memo_template (MemoInput.title payload)
                                          (MemoInput.position_summary payload) |}.
Proof. reflexivity. Qed.

(** C4. Two requests with the same title and the same summary get memos
    with the same [memo_text], and the memo returned always has an empty
    [citations] list. *)
Theorem C4_memo_deterministic (p1 p2 : MemoInput.t) :
  MemoInput.title p1 = MemoInput.title p2 ->
  MemoInput.position_summary p1 = MemoInput.position_summary p2 ->
  exists m1 m2,
    generate_defense_memo p1 = Ok m1
    /\ generate_defense_memo p2 = Ok m2
    /\ Memo.memo_text m1 = Memo.memo_text m2
    /\ Memo.citations m1 = []
    /\ Memo.citations m2 = [].
Proof.
  intros Ht Hs. eexists. eexists.
  split; [apply generate_defense_memo_returns|].
  split; [apply generate_defense_memo_returns|].
  simpl. rewrite Ht, Hs. auto.
Qed.

Lemma C4_memo_deterministic_witness :
  exists m1 m2,
    generate_defense_memo
      {| MemoInput.title := "Home office"; MemoInput.position_summary := "Deduct" |} = Ok m1
    /\ generate_defense_memo
         {| MemoInput.title := "Home office"; MemoInput.position_summary := "Deduct" |} = Ok m2
    /\ Memo.memo_text m1 = Memo.memo_text m2
    /\ Memo.citations m1 = []
    /\ Memo.citations m2 = [].
Proof.
  apply (C4_memo_deterministic
           {| MemoInput.title := "Home office"; MemoInput.position_summary := "Deduct" |}
           {| MemoInput.title := "Home office"; MemoInput.position_summary := "Deduct" |});
    reflexivity.
Defined.

(** C6, as stated, fails: a request with an empty title and an empty
    summary passes [MemoInput] and gets a memo. *)
Lemma C6_counterexample :
  MemoInput.make "" "" = Ok {| MemoInput.title := ""; MemoInput.position_summary := "" |}
  /\ generate_defense_memo {| MemoInput.title := ""; MemoInput.position_summary := "" |}
     = Ok {| Memo.title := ""; Memo.position_summary := ""; Memo.citations := [];
             Memo.memo_text := memo_template "" "" |}.
Proof. split; reflexivity. Qed.

(** C6, as the code has it. [MemoInput] accepts any two strings, the
    empty ones included, and the generator returns a memo for them: it
    copies the title and the summary and renders the template. *)
Theorem C6_memo_accepts_any_strings (title summary : string) :
  exists payload m,
    MemoInput.make title summary = Ok payload
    /\ generate_defense_memo payload = Ok m
    /\ Memo.title m = title
    /\ Memo.position_summary m = summary
    /\ Memo.memo_text m = memo_template title summary.
Proof.
  exists {| MemoInput.title := title; MemoInput.position_summary := summary |}.
  eexists. split; [reflexivity|].
  split; [apply generate_defense_memo_returns|]. auto.
Qed.

(** ** Validation layer *)

Lemma validated_rejects {A : Type} (errors : list field_error) (a : A) (e : field_error) :
  e ∈ errors ->
  exists errs, validated errors a = Raise (ValidationError errs) /\ e ∈ errs.
Proof.
  intros He. exists errors. split; [|assumption].
  apply validated_errors. intros ->. by apply elem_of_nil in He.
Qed.

Lemma flt_zero_not_fge (x : float) :
  flt x (of_Z 0) = true -> fge x (of_Z 0) = false.
Proof. destruct x as [[]|[]| |[] m e]; try discriminate; reflexivity. Qed.

(** A scan request with the threshold -1 and a null [cost_basis] passes the
    validation of the request, and the scan fails with a [TypeError], not
    with a [ValidationError]. *)
Lemma C5_counterexample :
  flt (of_Z (-1)) (of_Z 0) = true
  /\ HarvestInput.make "main" [null_cost_position] (Some (of_Z (-1)))
     = Ok null_cost_payload
  /\ @scan_tax_loss_harvest ascii_builtins null_cost_payload = Raise TypeError.
Proof. split; [|split]; vm_compute; reflexivity. Qed.

Section ScanOrder.
Context `{PyBuiltins}.

Lemma scan_loop_first_bad (threshold : float) (good rest : list dict) (bad : dict)
    (acc : list dict) (e : exn) :
  Forall converts good ->
  position_unrealized bad = Raise e ->
  for_each (scan_position threshold) (good ++ bad :: rest) acc = Raise e.
Proof.
  revert acc. induction good as [|p good IH]; intros acc Hgood Hbad.
  - simpl. rewrite scan_position_unfold, Hbad. reflexivity.
  - inversion Hgood as [|? ? [u Hu] Hrest]; subst. simpl.
    rewrite (scan_position_ok _ _ _ _ Hu). simpl. by apply IH.
Qed.

Lemma scan_raises_first (payload : HarvestInput.t) (good rest : list dict)
    (bad : dict) (e : exn) :
  HarvestInput.positions payload = good ++ bad :: rest ->
  Forall converts good ->
  position_unrealized bad = Raise e ->
  scan_tax_loss_harvest payload = Raise e.
Proof.
  intros Hpos Hgood Hbad. unfold scan_tax_loss_harvest. rewrite Hpos.
  by rewrite (scan_loop_first_bad _ _ _ _ _ _ Hgood Hbad).
Qed.

End ScanOrder.

(** C5. A depreciation request is rejected with a [ValidationError] that
    names the field and the constraint when [cost_basis >= 0] fails and
    when [life_years] is below 1 or above 40, and a [HarvestPlan] is
    rejected in the same way when [threshold >= 0] fails. The request of a
    harvest scan carries no constraint on its threshold: a threshold below
    0 passes the validation of the request, and the scan then never returns
    a plan. When every position converts, building the plan raises the
    [ValidationError] for [threshold]; when one does not, the exception of
    the first such position is raised instead. *)
Theorem C5_validation_rejects :
  (forall (name : string) (C : float) (d : date) (L : Z),
      fge C (of_Z 0) = false ->
      exists errs,
        DepreciationInput.make name C d L = Raise (ValidationError errs)
        /\ ("cost_basis", Ge 0) ∈ errs)
  /\ (forall (name : string) (C : float) (d : date) (L : Z),
        L < 1 ->
        exists errs,
          DepreciationInput.make name C d L = Raise (ValidationError errs)
          /\ ("life_years", Ge 1) ∈ errs)
  /\ (forall (name : string) (C : float) (d : date) (L : Z),
        40 < L ->
        exists errs,
          DepreciationInput.make name C d L = Raise (ValidationError errs)
          /\ ("life_years", Le 40) ∈ errs)
  /\ (forall (name : string) (T : float) (n : Z) (candidates : list dict),
        fge T (of_Z 0) = false ->
        exists errs,
          HarvestPlan.make name T n candidates = Raise (ValidationError errs)
          /\ ("threshold", Ge 0) ∈ errs)
  /\ (forall (name : string) (positions : list dict) (T : float),
        HarvestInput.make name positions (Some T)
        = Ok {| HarvestInput.portfolio_name := name;
                HarvestInput.positions := positions;
                HarvestInput.threshold := T |})
  /\ (forall (B : PyBuiltins) (payload : HarvestInput.t),
        flt (HarvestInput.threshold payload) (of_Z 0) = true ->
        (forall plan, @scan_tax_loss_harvest B payload <> Ok plan)
        /\ (Forall (@converts B) (HarvestInput.positions payload) ->
            @scan_tax_loss_harvest B payload
            = Raise (ValidationError [("threshold", Ge 0)]))
        /\ (forall (good rest : list dict) (bad : dict) (e : exn),
              HarvestInput.positions payload = good ++ bad :: rest ->
              Forall (@converts B) good ->
              @position_unrealized B bad = Raise e ->
              @scan_tax_loss_harvest B payload = Raise e)).
Proof.
  split; [|split; [|split; [|split; [|split]]]].
  - intros name C d L HC. apply validated_rejects.
    unfold check_float_ge. rewrite HC. set_solver.
  - intros name C d L HL. apply validated_rejects.
    unfold check_int_ge. destruct (Z.leb_spec 1 L); [lia|]. set_solver.
  - intros name C d L HL. apply validated_rejects.
    unfold check_int_le. destruct (Z.leb_spec L 40); [lia|]. set_solver.
  - intros name T n candidates HT. apply validated_rejects.
    unfold check_float_ge. rewrite HT. set_solver.
  - reflexivity.
  - intros B payload HT. apply flt_zero_not_fge in HT. split; [|split].
    + intros plan Hrun. apply scan_returns in Hrun as (HT' & _). congruence.
    + intros Hall. unfold scan_tax_loss_harvest.
      rewrite (scan_loop_ok _ _ _ Hall). simpl.
      by rewrite harvest_plan_make, HT.
    + intros good rest bad e. apply scan_raises_first.
Qed.

Lemma C5_validation_rejects_witness :
  (exists errs,
      DepreciationInput.make "van" (of_Z (-1)) {| year := 2024; month := 1; day := 2 |} 5
      = Raise (ValidationError errs)
      /\ ("cost_basis", Ge 0) ∈ errs)
  /\ (exists errs,
        DepreciationInput.make "van" (of_Z 10) {| year := 2024; month := 1; day := 2 |} 0
        = Raise (ValidationError errs)
        /\ ("life_years", Ge 1) ∈ errs)
  /\ (exists errs,
        DepreciationInput.make "van" (of_Z 10) {| year := 2024; month := 1; day := 2 |} 41
        = Raise (ValidationError errs)
        /\ ("life_years", Le 40) ∈ errs)
  /\ (exists errs,
        HarvestPlan.make "main" (of_Z (-1)) 0 [] = Raise (ValidationError errs)
        /\ ("threshold", Ge 0) ∈ errs)
  /\ (forall plan,
        @scan_tax_loss_harvest ascii_builtins negative_threshold_payload <> Ok plan)
  /\ @scan_tax_loss_harvest ascii_builtins negative_threshold_payload
     = Raise (ValidationError [("threshold", Ge 0)])
  /\ @scan_tax_loss_harvest ascii_builtins
       {| HarvestInput.portfolio_name := "main";
          HarvestInput.positions := [example_position; {[ "quantity" := JNull ]}];
          HarvestInput.threshold := of_Z (-1) |} = Raise TypeError.
Proof.
  pose proof C5_validation_rejects as (Hcost & Hlow & Hhigh & Hplan & _ & Hscan).
  split; [|split; [|split; [|split]]].
  - apply Hcost. reflexivity.
  - apply Hlow. lia.
  - apply Hhigh. lia.
  - apply Hplan. reflexivity.
  - destruct (Hscan ascii_builtins negative_threshold_payload) as (Hnever & Hraise & _);
      [reflexivity|].
    split; [exact Hnever|]. split.
    + apply Hraise.
      repeat constructor. exists (of_Z (-600)). vm_compute. reflexivity.
    + destruct (Hscan ascii_builtins
                  {| HarvestInput.portfolio_name := "main";
                     HarvestInput.positions :=
                       [example_position; {[ "quantity" := JNull ]}];
                     HarvestInput.threshold := of_Z (-1) |}) as (_ & _ & Hfirst);
        [reflexivity|].
      apply (Hfirst [example_position] [] {[ "quantity" := JNull ]} TypeError).
      * reflexivity.
      * repeat constructor. exists (of_Z (-600)). vm_compute. reflexivity.
      * vm_compute. reflexivity.
Defined.

(** ** Rounding to a double *)

Lemma fexp_eq (e : Z) : fexp prec emax e = Z.max (e - 53) (-1074).
Proof. reflexivity. Qed.

Lemma digits2_pos_bounds (p : positive) :
  2 ^ (Zpos (digits2_pos p) - 1) <= Zpos p < 2 ^ Zpos (digits2_pos p).
Proof.
  induction p as [p IH|p IH|]; simpl digits2_pos.
  - rewrite Pos2Z.inj_succ. change (Z.pos p~1) with (2 * Z.pos p + 1).
    replace (Z.succ (Zpos (digits2_pos p)) - 1) with (Z.succ (Zpos (digits2_pos p) - 1)) by lia.
    rewrite !Z.pow_succ_r by lia. lia.
  - rewrite Pos2Z.inj_succ. change (Z.pos p~0) with (2 * Z.pos p).
    replace (Z.succ (Zpos (digits2_pos p)) - 1) with (Z.succ (Zpos (digits2_pos p) - 1)) by lia.
    rewrite !Z.pow_succ_r by lia. lia.
  - simpl. lia.
Qed.

Lemma Zdigits2_bounds (m : Z) :
  0 < m -> 2 ^ (Zdigits2 m - 1) <= m < 2 ^ Zdigits2 m.
Proof. destruct m as [|p|p]; try lia. intros _. apply digits2_pos_bounds. Qed.

Lemma Zdigits2_nonneg (m : Z) : 0 <= Zdigits2 m.
Proof. destruct m; simpl; lia. Qed.

(** If [m < 2^d] then [m] has at most [d] digits. *)
Lemma Zdigits2_le (m d : Z) : 0 <= m -> 0 <= d -> m < 2 ^ d -> Zdigits2 m <= d.
Proof.
  intros Hm Hd Hlt. destruct (Z.eq_dec m 0) as [->|Hne]; [simpl; lia|].
  destruct (Zdigits2_bounds m ltac:(lia)) as [Hlo _].
  destruct (Z_le_gt_dec (Zdigits2 m) d) as [|Hgt]; [assumption|].
  assert (2 ^ d <= 2 ^ (Zdigits2 m - 1)) by (apply Z.pow_le_mono_r; lia). lia.
Qed.

Lemma Zdigits2_ge (m d : Z) : 0 <= d -> 2 ^ d <= m -> d + 1 <= Zdigits2 m.
Proof.
  intros Hd Hle.
  assert (0 < m) by (pose proof (Z.pow_pos_nonneg 2 d); lia).
  destruct (Zdigits2_bounds m ltac:(lia)) as [_ Hhi].
  destruct (Z_le_gt_dec (d + 1) (Zdigits2 m)) as [|Hgt]; [assumption|].
  assert (2 ^ Zdigits2 m <= 2 ^ d) by (apply Z.pow_le_mono_r; lia). lia.
Qed.

Lemma shr_1_spec (m : Z) (rb sb : bool) :
  0 <= m ->
  let r := shr_1 (Build_shr_record m rb sb) in
  m = 2 * shr_m r + (if shr_r r then 1 else 0)
  /\ shr_s r = rb || sb
  /\ 0 <= shr_m r.
Proof.
  intros Hm. destruct m as [|[p|p|]|p]; cbn; try lia;
    repeat split; try reflexivity; lia.
Qed.

Lemma located_shr_1 (P W m : Z) (rb sb : bool) :
  0 < W -> 0 <= m -> located P W m rb sb ->
  let r := shr_1 (Build_shr_record m rb sb) in
  located P (2 * W) (shr_m r) (shr_r r) (shr_s r).
Proof.
  intros HW Hm Hloc.
  destruct (shr_1_spec m rb sb Hm) as (Hdec & Hs & Hnn).
  cbv zeta. rewrite Hs.
  set (m' := shr_m (shr_1 {| shr_m := m; shr_r := rb; shr_s := sb |})) in *.
  destruct (shr_r _); destruct rb, sb; unfold located in *; simpl; nia.
Qed.

Lemma shr_inv_step (P W m0 k : Z) (mrs : shr_record) :
  0 < W -> 0 <= k -> shr_inv P W m0 k mrs -> shr_inv P W m0 (k + 1) (shr_1 mrs).
Proof.
  intros HW Hk (Hloc & Hnn & Hbits). destruct mrs as [m rb sb].
  cbn [shr_m shr_r shr_s] in *.
  assert (Hpow : 0 < 2 ^ k) by (apply Z.pow_pos_nonneg; lia).
  destruct (shr_1_spec m rb sb Hnn) as (Hdec & _ & Hnn').
  pose proof (located_shr_1 P (2 ^ k * W) m rb sb ltac:(nia) Hnn Hloc) as Hloc'.
  cbv zeta in Hloc', Hdec, Hnn'.
  unfold shr_inv. rewrite Z.pow_add_r, Z.pow_1_r by lia.
  replace (2 ^ k * 2 * W) with (2 * (2 ^ k * W)) by ring.
  split; [exact Hloc'|]. split; [exact Hnn'|].
  set (m' := shr_m (shr_1 {| shr_m := m; shr_r := rb; shr_s := sb |})) in *.
  set (a := 2 ^ k) in *.
  replace (a * 2 * m') with (a * (2 * m')) by ring.
  replace (a * 2 * (m' + 1)) with (a * (2 * m' + 1) + a) by ring.
  rewrite Z.mul_add_distr_l, Z.mul_1_r in Hbits.
  destruct (shr_r (shr_1 _)).
  - replace (2 * m' + 1) with m by lia. replace (2 * m') with (m - 1) by lia.
    rewrite Z.mul_sub_distr_l, Z.mul_1_r. lia.
  - replace (2 * m' + 1) with (m + 1) by lia. replace (2 * m') with m by lia.
    rewrite Z.mul_add_distr_l, Z.mul_1_r. lia.
Qed.

Lemma shr_inv_iter (P W m0 : Z) (n : positive) :
  0 < W ->
  forall (k : Z) (mrs : shr_record),
    0 <= k -> shr_inv P W m0 k mrs ->
    shr_inv P W m0 (k + Zpos n) (SpecFloat.iter_pos shr_1 n mrs).
Proof.
  intros HW. induction n as [n IH|n IH|]; intros k mrs Hk Hinv; simpl SpecFloat.iter_pos.
  - replace (k + Z.pos n~1) with (k + 1 + Z.pos n + Z.pos n) by lia.
    apply IH; [lia|]. apply IH; [lia|]. by apply shr_inv_step.
  - replace (k + Z.pos n~0) with (k + Z.pos n + Z.pos n) by lia.
    apply IH; [lia|]. by apply IH.
  - by apply shr_inv_step.
Qed.

(** [shr_fexp]: the mantissa is shifted down to the exponent
    [max e (fexp (digits m + e))]. *)
Lemma shr_fexp_spec (P W m e : Z) (l : location) :
  0 < W -> 0 <= m ->
  located P W m (fst (loc_bits l)) (snd (loc_bits l)) ->
  let e1 := Z.max e (fexp prec emax (Zdigits2 m + e)) in
  exists mrs,
    shr_fexp prec emax m e l = (mrs, e1)
    /\ shr_inv P W m (e1 - e) mrs.
Proof.
  intros HW Hm Hloc e1. unfold shr_fexp, shr.
  assert (Hinit : shr_inv P W m 0 (shr_record_of_loc m l)).
  { unfold shr_inv. rewrite Z.pow_0_r, !Z.mul_1_l.
    destruct l as [|[]]; simpl in *; repeat split; try assumption; lia. }
  destruct (fexp prec emax (Zdigits2 m + e) - e) as [|n|n] eqn:Hn.
  - exists (shr_record_of_loc m l). replace e1 with e by lia.
    rewrite Z.sub_diag. by split.
  - exists (SpecFloat.iter_pos shr_1 n (shr_record_of_loc m l)).
    replace e1 with (e + Z.pos n) by lia. split; [reflexivity|].
    replace (e + Z.pos n - e) with (0 + Z.pos n) by lia.
    apply shr_inv_iter; [assumption | lia | assumption].
  - exists (shr_record_of_loc m l). replace e1 with e by lia.
    rewrite Z.sub_diag. by split.
Qed.

Lemma round_nearest_even_spec (P W m : Z) (rb sb : bool) :
  0 < W -> located P W m rb sb ->
  let m1 := round_nearest_even m (loc_of_shr_record (Build_shr_record m rb sb)) in
  m <= m1 <= m + 1
  /\ Z.abs (2 * m1 * W - 2 * P) <= W
  /\ (m1 = m + 1 -> (2 * m + 1) * W <= 2 * P).
Proof.
  intros HW Hloc. destruct rb, sb; simpl in *.
  - nia.
  - destruct (Z.even m); nia.
  - nia.
  - nia.
Qed.

Lemma located_bounds (P W m : Z) (rb sb : bool) :
  0 < W -> located P W m rb sb -> m * W <= P < (m + 1) * W.
Proof. intros HW Hloc. destruct rb, sb; simpl in Hloc; nia. Qed.

Lemma shr_fexp_noop (m e : Z) (l : location) :
  fexp prec emax (Zdigits2 m + e) <= e ->
  shr_fexp prec emax m e l = (shr_record_of_loc m l, e).
Proof.
  intros Hle. unfold shr_fexp, shr.
  destruct (fexp prec emax (Zdigits2 m + e) - e) eqn:Hn; try reflexivity. lia.
Qed.

Lemma binary_round_aux_spec (s : bool) (mx ex : Z) (lx : location) (P W : Z) :
  0 < W -> 0 <= mx ->
  located P W mx (fst (loc_bits lx)) (snd (loc_bits lx)) ->
  let e1 := Z.max ex (fexp prec emax (Zdigits2 mx + ex)) in
  let W1 := 2 ^ (e1 - ex) * W in
  exists m1,
    0 <= m1 <= two53
    /\ Z.abs (2 * m1 * W1 - 2 * P) <= W1
    /\ (m1 = two53 -> (2 * two53 - 1) * W1 <= 2 * P)
    /\ (e1 = -1074 \/ e1 = ex \/ 2 ^ 52 * W1 <= P)
    /\ binary_round_aux prec emax s mx ex lx = pack s m1 e1.
Proof.
  intros HW Hmx Hloc e1 W1.
  destruct (shr_fexp_spec P W mx ex lx HW Hmx Hloc) as (mrs & Hshr & Hinv).
  fold e1 in Hshr, Hinv. destruct Hinv as (Hloc1 & Hnn & Hbits). fold W1 in Hloc1.
  destruct mrs as [m' rb sb]. cbn [shr_m shr_r shr_s] in *.
  assert (Hk : 0 <= e1 - ex) by lia.
  assert (Hpk : 0 < 2 ^ (e1 - ex)) by (apply Z.pow_pos_nonneg; lia).
  assert (HW1 : 0 < W1) by (unfold W1; nia).
  assert (He1 : -1074 <= e1) by (unfold e1; rewrite fexp_eq; lia).
  assert (Hm' : m' < two53).
  { destruct (Z.eq_dec mx 0) as [->|Hne]; [unfold two53; nia|].
    destruct (Zdigits2_bounds mx ltac:(lia)) as [_ Hhi].
    assert (Hd : Zdigits2 mx <= e1 - ex + 53)
      by (unfold e1; rewrite fexp_eq; lia).
    assert (2 ^ Zdigits2 mx <= 2 ^ (e1 - ex + 53))
      by (apply Z.pow_le_mono_r; lia).
    rewrite Z.pow_add_r in H by lia. fold two53 in H. nia. }
  destruct (round_nearest_even_spec P W1 m' rb sb HW1 Hloc1) as (Hm1 & Herr & Hup).
  set (m1 := round_nearest_even m' (loc_of_shr_record (Build_shr_record m' rb sb))) in *.
  exists m1. split; [lia|]. split; [exact Herr|]. split.
  { intros ->. assert (m' = two53 - 1) by lia. subst m'.
    specialize (Hup ltac:(lia)). nia. }
  split.
  { destruct (Z.eq_dec mx 0) as [Hz|Hz].
    { subst mx. unfold e1. simpl Zdigits2. rewrite fexp_eq. lia. }
    assert (Hpos : 0 < mx) by lia.
    destruct (Z.eq_dec e1 (-1074)) as [|Hn1]; [by left|].
    destruct (Z.eq_dec e1 ex) as [|Hn2]; [by right; left|].
    right; right.
    assert (He : e1 = Zdigits2 mx + ex - 53) by (unfold e1 in *; rewrite fexp_eq in *; lia).
    destruct (Zdigits2_bounds mx Hpos) as [Hlo _].
    replace (Zdigits2 mx - 1) with (e1 - ex + 52) in Hlo by lia.
    rewrite Z.pow_add_r in Hlo by lia.
    pose proof (located_bounds P W mx _ _ HW Hloc) as [HP _].
    unfold W1. nia. }
  unfold binary_round_aux. rewrite Hshr. cbn [shr_m]. fold m1. unfold pack.
  destruct (Z.eqb_spec m1 0) as [Hz|Hz].
  - rewrite Hz. rewrite shr_fexp_noop by (simpl Zdigits2; rewrite fexp_eq; lia).
    reflexivity.
  - destruct (Z.ltb_spec m1 two53) as [Hlt|Hge].
    + rewrite shr_fexp_noop.
      * cbn [shr_record_of_loc shr_m]. destruct m1 as [|p|p]; try lia.
        reflexivity.
      * assert (Zdigits2 m1 <= 53) by (apply Zdigits2_le; unfold two53 in *; lia).
        rewrite fexp_eq. lia.
    + assert (Hm1' : m1 = two53) by lia. rewrite Hm1'.
      unfold shr_fexp. change (Zdigits2 two53) with 54. rewrite fexp_eq.
      replace (Z.max (54 + e1 - 53) (-1074) - e1) with 1 by lia.
      reflexivity.
Qed.

(** ** Division *)

Lemma new_location_spec (nb k : Z) :
  0 < nb -> 0 <= k < nb ->
  located k nb 0 (fst (loc_bits (new_location nb k)))
                 (snd (loc_bits (new_location nb k))).
Proof.
  intros Hnb Hk. unfold new_location.
  destruct (Z.even nb) eqn:Heven.
  - unfold new_location_even. destruct (Z.eqb_spec k 0) as [->|Hne]; [simpl; lia|].
    destruct (Z.compare_spec (2 * k) nb); simpl; lia.
  - unfold new_location_odd. destruct (Z.eqb_spec k 0) as [->|Hne]; [simpl; lia|].
    assert (Hodd : Z.odd nb = true) by (rewrite <- Z.negb_even, Heven; reflexivity).
    apply Z.odd_spec in Hodd as [j Hj].
    destruct (Z.compare_spec (2 * k + 1) nb); simpl; lia.
Qed.

Lemma located_quotient (k W q : Z) (rb sb : bool) :
  located k W 0 rb sb -> located (q * W + k) W q rb sb.
Proof. destruct rb, sb; simpl; nia. Qed.

(** The quotient that [SFdiv_core_binary] hands to the rounding: it is the
    integer part of [m1 * 2^s / m2] at the exponent [e' = e1 - e2 - s]. *)
Lemma SFdiv_core_binary_spec (m1 e1 m2 e2 : Z) :
  0 < m1 -> 0 < m2 ->
  exists q e' l,
    SFdiv_core_binary prec emax m1 e1 m2 e2 = (q, e', l)
    /\ 0 <= q
    /\ 0 <= e1 - e2 - e'
    /\ e' <= fexp prec emax (Zdigits2 m1 + e1 - (Zdigits2 m2 + e2))
    /\ located (m1 * 2 ^ (e1 - e2 - e')) m2 q (fst (loc_bits l)) (snd (loc_bits l)).
Proof.
  intros Hm1 Hm2. unfold SFdiv_core_binary.
  set (e' := Z.min (fexp prec emax (Zdigits2 m1 + e1 - (Zdigits2 m2 + e2))) (e1 - e2)).
  set (s := e1 - e2 - e').
  assert (Hs : 0 <= s) by (unfold s, e'; lia).
  set (m' := match s with Z.pos _ => Z.shiftl m1 s | 0 => m1 | Z.neg _ => 0 end).
  assert (Hm' : m' = m1 * 2 ^ s).
  { unfold m'. destruct s as [|p|p] eqn:Hsp.
    - rewrite Z.pow_0_r. lia.
    - apply Z.shiftl_mul_pow2. lia.
    - lia. }
  pose proof (Z_div_mod m' m2 ltac:(lia)) as Hdiv.
  destruct (Z.div_eucl m' m2) as [q r]. destruct Hdiv as [Heq Hr].
  assert (Hpow : 0 < 2 ^ s) by (apply Z.pow_pos_nonneg; lia).
  exists q, e', (new_location m2 r).
  split; [reflexivity|]. split; [nia|]. split; [exact Hs|].
  split; [unfold e'; lia|].
  fold s. rewrite <- Hm', Heq. replace (m2 * q + r) with (q * m2 + r) by ring.
  apply located_quotient, new_location_spec; lia.
Qed.

Lemma Zdigits2_pos (m : positive) : 1 <= Zdigits2 (Zpos m).
Proof. simpl. lia. Qed.

(** The result of [div_round] is [mr * 2^er], where [mr] is within one half
    of [P / W] and [(P / W) * 2^er] is the exact quotient. *)
Lemma div_round_spec (s : bool) (m1 : positive) (e1 : Z) (m2 : positive) (e2 : Z) :
  exists mr er a b,
    0 <= a /\ 0 <= b /\ a - b + er = e1 - e2 /\ -1074 <= er
    /\ 0 <= mr <= two53
    /\ Z.abs (2 * mr * (Zpos m2 * 2 ^ b) - 2 * (Zpos m1 * 2 ^ a)) <= Zpos m2 * 2 ^ b
    /\ (mr = two53 -> (2 * two53 - 1) * (Zpos m2 * 2 ^ b) <= 2 * (Zpos m1 * 2 ^ a))
    /\ (er = -1074 \/ 2 ^ 52 * (Zpos m2 * 2 ^ b) <= Zpos m1 * 2 ^ a)
    /\ div_round s m1 e1 m2 e2 = pack s mr er.
Proof.
  destruct (SFdiv_core_binary_spec (Zpos m1) e1 (Zpos m2) e2 ltac:(lia) ltac:(lia))
    as (q & e' & l & Hcore & Hq & Hs & He' & Hloc).
  destruct (binary_round_aux_spec s q e' l (Zpos m1 * 2 ^ (e1 - e2 - e')) (Zpos m2)
              ltac:(lia) Hq Hloc)
    as (mr & Hmr & Herr & Hcarry & Hmag & Hbra).
  set (er := Z.max e' (fexp prec emax (Zdigits2 q + e'))) in *.
  assert (Her : -1074 <= er) by (unfold er; rewrite fexp_eq; lia).
  exists mr, er, (e1 - e2 - e'), (er - e').
  replace (Zpos m2 * 2 ^ (er - e')) with (2 ^ (er - e') * Zpos m2) by ring.
  split; [lia|]. split; [unfold er; lia|]. split; [lia|]. split; [exact Her|].
  split; [exact Hmr|]. split; [exact Herr|]. split; [exact Hcarry|].
  split.
  - destruct Hmag as [?|[Heq|?]]; [by left| |by right].
    rewrite fexp_eq in He'.
    destruct (Z_le_gt_dec e' (-1074)); [left; lia|]. right.
    rewrite Heq, Z.sub_diag, Z.pow_0_r, Z.mul_1_l.
    set (d1 := Zdigits2 (Zpos m1)) in *. set (d2 := Zdigits2 (Zpos m2)) in *.
    pose proof (Zdigits2_pos m1). pose proof (Zdigits2_pos m2).
    destruct (Zdigits2_bounds (Zpos m1) ltac:(lia)) as [Hlo1 _].
    destruct (Zdigits2_bounds (Zpos m2) ltac:(lia)) as [_ Hhi2].
    fold d1 in Hlo1, H. fold d2 in Hhi2, H0.
    assert (Hpow : 2 ^ (52 + d2) <= 2 ^ (d1 - 1 + (e1 - e2 - e')))
      by (apply Z.pow_le_mono_r; lia).
    rewrite !Z.pow_add_r in Hpow by lia.
    assert (0 < 2 ^ (e1 - e2 - e')) by (apply Z.pow_pos_nonneg; lia).
    assert (0 < 2 ^ 52) by lia.
    nia.
  - unfold div_round. rewrite Hcore. exact Hbra.
Qed.

(** ** Exact values *)

Section ExactValues.
Local Open Scope Q_scope.

Lemma pow2_pos (z : Z) : 0 < 2 ^ z.
Proof. apply Qpower_0_lt. reflexivity. Qed.

Lemma pow2_add (a b : Z) : 2 ^ (a + b) == 2 ^ a * 2 ^ b.
Proof. apply Qpower_plus. discriminate. Qed.

Lemma pow2_inject (n : Z) : (0 <= n)%Z -> inject_Z (2 ^ n) == 2 ^ n.
Proof. intros Hn. by rewrite Zpower_Qpower. Qed.

Lemma pow2_le (a b : Z) : (a <= b)%Z -> 2 ^ a <= 2 ^ b.
Proof. intros Hab. apply Qpower_le_compat_l; [assumption | discriminate]. Qed.

Lemma pack_value (mr er : Z) :
  (0 <= mr <= two53)%Z -> (-1074 <= er)%Z ->
  (mr < two53 -> er <= 971)%Z ->
  (mr = two53 -> er + 1 <= 971)%Z ->
  in_range (pack false mr er)
  /\ F2Q (pack false mr er) == inject_Z mr * 2 ^ er.
Proof.
  intros Hmr Her Hsmall Hcarry. unfold pack.
  destruct (Z.eqb_spec mr 0) as [->|Hnz].
  - split; [reflexivity|]. simpl. ring.
  - destruct (Z.ltb_spec mr two53) as [Hlt|Hge].
    + destruct (Z.leb_spec er 971) as [Hle|Hgt]; [|lia].
      destruct mr as [|p|p]; try lia. simpl Z.to_pos. split.
      * simpl. repeat split; lia.
      * reflexivity.
    + assert (mr = two53) by lia. subst mr.
      destruct (Z.leb_spec (er + 1) 971) as [Hle|Hgt]; [|lia]. split.
      * simpl. repeat split; try lia; reflexivity.
      * unfold F2Q. rewrite pow2_add.
        change (inject_Z (Z.pos (Z.to_pos (2 ^ 52)))) with (inject_Z (2 ^ 52)).
        unfold two53. qconst (inject_Z (2 ^ 52)). qconst (inject_Z (2 ^ 53)).
        qconst (2 ^ 1). ring.
Qed.

End ExactValues.

Section DivisionError.
Local Open Scope Q_scope.

Lemma Qmult_le_cancel_r (x y z : Q) : 0 < z -> x * z <= y * z -> x <= y.
Proof. intros Hz H. by apply (Qmult_le_r x y z Hz). Qed.

Lemma div_round_error (m1 : positive) (e1 : Z) (m2 : positive) (e2 : Z) :
  quotient m1 e1 m2 e2 <= Fmax ->
  in_range (div_round false m1 e1 m2 e2)
  /\ Qabs (F2Q (div_round false m1 e1 m2 e2) - quotient m1 e1 m2 e2)
     <= 2 ^ (-53) * quotient m1 e1 m2 e2 + 2 ^ (-1075).
Proof.
  intros Hmax.
  destruct (div_round_spec false m1 e1 m2 e2)
    as (mr & er & a & b & Ha & Hb & Hexp & Her & Hmr & Herr & Hcarry & Hmag & ->).
  set (r := quotient m1 e1 m2 e2) in *.
  set (N := inject_Z (Zpos m1)). set (D := inject_Z (Zpos m2)).
  set (mq := inject_Z mr).
  assert (HN : 0 < N) by (unfold N, Qlt; simpl; lia).
  assert (HD : 0 < D) by (unfold D, Qlt; simpl; lia).
  pose proof (pow2_pos a) as HA. pose proof (pow2_pos b) as HB.
  pose proof (pow2_pos er) as HER. pose proof (pow2_pos e1) as HE1.
  pose proof (pow2_pos e2) as HE2.
  assert (Hpow : 2 ^ a * 2 ^ er * 2 ^ e2 == 2 ^ b * 2 ^ e1).
  { rewrite <- !pow2_add. replace (a + er + e2)%Z with (b + e1)%Z by lia. reflexivity. }
  set (P := N * 2 ^ a). set (W := D * 2 ^ b).
  assert (HW : 0 < W) by (unfold W; nra).
  assert (HP : 0 < P) by (unfold P; nra).
  (* the quotient, in the units of the rounding *)
  assert (Hr : r * W == P * 2 ^ er).
  { assert (Hq : r * (D * 2 ^ e2) == N * 2 ^ e1).
    { unfold r, quotient. fold N D. field. split; lra. }
    apply (Qmult_inj_r _ _ (2 ^ e2)); [lra|].
    transitivity (r * (D * 2 ^ e2) * 2 ^ b); [unfold W; ring|]. rewrite Hq.
    transitivity (N * (2 ^ b * 2 ^ e1)); [ring|]. rewrite <- Hpow.
    unfold P. ring. }
  assert (Hr0 : 0 <= r).
  { apply (Qmult_le_cancel_r 0 r W HW). rewrite Hr. nra. }
  (* the integer facts, as rationals *)
  apply Z.abs_le in Herr as [Hlo Hhi].
  assert (Hlo' : (2 * (Zpos m1 * 2 ^ a) <= Zpos m2 * 2 ^ b + 2 * mr * (Zpos m2 * 2 ^ b))%Z) by lia.
  assert (Hhi' : (2 * mr * (Zpos m2 * 2 ^ b) <= Zpos m2 * 2 ^ b + 2 * (Zpos m1 * 2 ^ a))%Z) by lia.
  clear Hlo Hhi.
  rewrite Zle_Qle in Hlo', Hhi'.
  repeat (rewrite inject_Z_plus in Hlo' || rewrite inject_Z_mult in Hlo'
          || rewrite pow2_inject in Hlo' by assumption).
  repeat (rewrite inject_Z_plus in Hhi' || rewrite inject_Z_mult in Hhi'
          || rewrite pow2_inject in Hhi' by assumption).
  fold N D mq P W in Hlo', Hhi'.
  change (inject_Z 2) with 2 in Hlo', Hhi'.
  assert (Hmag' : er = (-1074)%Z \/ 2 ^ 52 * W <= P).
  { destruct Hmag as [?|Hm]; [by left|right].
    rewrite Zle_Qle in Hm.
    repeat (rewrite inject_Z_mult in Hm || rewrite pow2_inject in Hm by lia).
    exact Hm. }
  assert (Hcarry' : mr = two53 -> (2 * inject_Z two53 - 1) * W <= 2 * P).
  { intros Heq. specialize (Hcarry Heq). rewrite Zle_Qle in Hcarry.
    repeat (rewrite inject_Z_mult in Hcarry
            || rewrite pow2_inject in Hcarry by assumption).
    exact Hcarry. }
  clear Hmag Hcarry.
  (* distance of the rounded mantissa to the quotient *)
  set (M := mq * 2 ^ er).
  assert (Hdist : Qabs (M - r) <= 2 ^ er * (1 # 2)).
  { pose proof (Qmult_le_compat_r _ _ (2 ^ er) Hlo' (Qlt_le_weak _ _ HER)) as Hlo2.
    pose proof (Qmult_le_compat_r _ _ (2 ^ er) Hhi' (Qlt_le_weak _ _ HER)) as Hhi2.
    apply Qabs_Qle_condition. unfold M. split.
    - apply (Qmult_le_cancel_r _ _ W HW). lra.
    - apply (Qmult_le_cancel_r _ _ W HW). lra. }
  (* the quotient below the largest double: no overflow *)
  assert (Hsmall : (mr < two53 -> er <= 971)%Z).
  { intros _. destruct (Z_le_gt_dec er 971) as [|Hgt]; [assumption|exfalso].
    destruct Hmag' as [?|Hm]; [lia|].
    assert (Hbig : 2 ^ 972 <= 2 ^ er) by (apply pow2_le; lia).
    assert (Hrw : 2 ^ 52 * 2 ^ er * W <= Fmax * W) by nra.
    apply Qmult_le_cancel_r in Hrw; [|assumption].
    unfold Fmax in Hrw. change 972%Z with (1 + 971)%Z in Hbig.
    rewrite pow2_add in Hbig. pose proof (pow2_pos 971).
    qconst (2 ^ 52). qconst (2 ^ 1). qconst (inject_Z (2 ^ 53 - 1)). nra. }
  assert (Hbig : (mr = two53 -> er + 1 <= 971)%Z).
  { intros Heq. destruct (Z_le_gt_dec (er + 1) 971) as [|Hgt]; [assumption|exfalso].
    specialize (Hcarry' Heq).
    assert (Hge : 2 ^ 971 <= 2 ^ er) by (apply pow2_le; lia).
    pose proof (Qmult_le_compat_r _ _ (2 ^ er) Hcarry' (Qlt_le_weak _ _ HER)) as Hc2.
    assert (Hrw : (2 * inject_Z two53 - 1) * 2 ^ er * W <= 2 * Fmax * W) by nra.
    apply Qmult_le_cancel_r in Hrw; [|assumption].
    unfold Fmax in Hrw. pose proof (pow2_pos 971).
    qconst (inject_Z two53). qconst (inject_Z (2 ^ 53 - 1)). nra. }
  destruct (pack_value mr er Hmr Her Hsmall Hbig) as [Hrange Hval].
  split; [exact Hrange|]. rewrite Hval. fold mq M.
  assert (H1075 : 2 ^ er * (1 # 2) <= 2 ^ (-53) * r + 2 ^ (-1075)).
  { destruct Hmag' as [->|Hm].
    - change (-1074)%Z with (1 + -1075)%Z. rewrite pow2_add.
      pose proof (pow2_pos (-1075)). qconst (2 ^ 1). qconst (2 ^ (-53)). nra.
    - pose proof (pow2_pos (-1075)).
      pose proof (Qmult_le_compat_r _ _ (2 ^ er) Hm (Qlt_le_weak _ _ HER)) as Hm2.
      assert (Hrw : 2 ^ 52 * 2 ^ er * W <= r * W) by lra.
      apply Qmult_le_cancel_r in Hrw; [|assumption].
      qconst (2 ^ 52). qconst (2 ^ (-53)). lra. }
  lra.
Qed.

End DivisionError.

Lemma div_half_even_spec (a b : Z) :
  0 <= a -> 0 < b ->
  0 <= div_half_even a b
  /\ Z.abs (2 * b * div_half_even a b - 2 * a) <= b.
Proof.
  intros Ha Hb. unfold div_half_even.
  pose proof (Z.div_mod a b ltac:(lia)) as Hdiv.
  pose proof (Z.mod_pos_bound a b Hb) as Hmod.
  assert (Hq : 0 <= a / b) by (apply Z.div_pos; lia).
  set (q := a / b) in *. set (r := a mod b) in *.
  destruct (Z.compare_spec (2 * r) b); [destruct (Z.even q)| |]; split; nia.
Qed.

Section RoundTwo.
Local Open Scope Q_scope.

Lemma valid_in_range (m : positive) (e : Z) :
  valid_binary prec emax (S754_finite false m e) = true ->
  in_range (S754_finite false m e).
Proof.
  simpl. unfold bounded, canonical_mantissa. intros Hb.
  apply andb_prop in Hb as [Hcan Hle].
  apply Z.eqb_eq in Hcan. apply Z.leb_le in Hle. rewrite fexp_eq in Hcan.
  change (emax - prec)%Z with 971%Z in Hle.
  split; [reflexivity|]. split; [|lia].
  pose proof (digits2_pos_bounds m) as [_ Hhi].
  assert (2 ^ Z.pos (digits2_pos m) <= 2 ^ 53)%Z by (apply Z.pow_le_mono_r; lia).
  unfold two53. lia.
Qed.

Lemma in_range_nonneg (v : spec_float) : in_range v -> 0 <= F2Q v.
Proof.
  destruct v as [s| | |s m e]; simpl; try tauto; try (intros; lra).
  intros (-> & _ & _). pose proof (pow2_pos e).
  assert (0 < inject_Z (Z.pos m)) by (unfold Qlt; simpl; lia). nra.
Qed.

Lemma in_range_le_Fmax (v : spec_float) : in_range v -> F2Q v <= Fmax.
Proof.
  destruct v as [s| | |s m e]; simpl; try tauto.
  - intros _. unfold Fmax. pose proof (pow2_pos 971).
    qconst (inject_Z (2 ^ 53 - 1)). nra.
  - intros (-> & Hm & He). unfold Fmax.
    assert (Hpow : 2 ^ e <= 2 ^ 971) by (apply pow2_le; lia).
    assert (Hm' : inject_Z (Z.pos m) <= inject_Z (2 ^ 53 - 1))
      by (rewrite <- Zle_Qle; unfold two53 in Hm; lia).
    pose proof (pow2_pos e).
    assert (0 < inject_Z (Z.pos m)) by (unfold Qlt; simpl; lia).
    apply Qmult_le_compat_nonneg; split; lra.
Qed.

(** The two-decimal integer of [round2] is within one half of [100 * x]. *)
Lemma cents_spec (m : positive) (e : Z) :
  (0 <= cents m e)%Z
  /\ Qabs (inject_Z (cents m e) - 100 * (inject_Z (Zpos m) * 2 ^ e)) <= 1 # 2.
Proof.
  unfold cents. destruct e as [|k|k].
  - split; [lia|]. rewrite Z.pow_0_r, Z.mul_1_r, inject_Z_mult.
    setoid_replace (inject_Z 100 * inject_Z (Z.pos m)
                    - 100 * (inject_Z (Z.pos m) * 2 ^ 0)) with 0 using relation Qeq
      by (change (2 ^ 0) with 1; change (inject_Z 100) with 100; ring).
    discriminate.
  - split; [lia|]. rewrite !inject_Z_mult, pow2_inject by lia.
    setoid_replace (inject_Z 100 * inject_Z (Z.pos m) * 2 ^ Z.pos k
                    - 100 * (inject_Z (Z.pos m) * 2 ^ Z.pos k)) with 0 using relation Qeq
      by (change (inject_Z 100) with 100; ring).
    discriminate.
  - assert (Hb : (0 < 2 ^ Z.pos k)%Z) by (apply Z.pow_pos_nonneg; lia).
    destruct (div_half_even_spec (100 * Z.pos m) (2 ^ Z.pos k) ltac:(lia) Hb)
      as [Hnn Herr].
    split; [exact Hnn|].
    set (n := div_half_even (100 * Z.pos m) (2 ^ Z.pos k)) in *.
    apply Z.abs_le in Herr as [Hlo Hhi].
    assert (Hlo' : (2 * (100 * Z.pos m) <= 2 ^ Z.pos k + 2 * 2 ^ Z.pos k * n)%Z) by lia.
    assert (Hhi' : (2 * 2 ^ Z.pos k * n <= 2 ^ Z.pos k + 2 * (100 * Z.pos m))%Z) by lia.
    rewrite Zle_Qle in Hlo', Hhi'.
    repeat (rewrite inject_Z_plus in Hlo' || rewrite inject_Z_mult in Hlo'
            || rewrite pow2_inject in Hlo' by lia).
    repeat (rewrite inject_Z_plus in Hhi' || rewrite inject_Z_mult in Hhi'
            || rewrite pow2_inject in Hhi' by lia).
    change (inject_Z 2) with 2 in *. change (inject_Z 100) with 100 in *.
    assert (Hinv : 2 ^ Z.neg k * 2 ^ Z.pos k == 1).
    { rewrite <- pow2_add. replace (Z.neg k + Z.pos k)%Z with 0%Z by lia.
      reflexivity. }
    pose proof (pow2_pos (Z.pos k)) as Hpk. pose proof (pow2_pos (Z.neg k)) as Hnk.
    set (T := 2 ^ Z.pos k) in *. set (U := 2 ^ Z.neg k) in *.
    set (mq := inject_Z (Z.pos m)) in *. set (nq := inject_Z n) in *.
    apply Qabs_Qle_condition. split.
    + apply (Qmult_le_cancel_r _ _ T Hpk).
      setoid_replace ((nq - 100 * (mq * U)) * T) with (nq * T - 100 * mq * (U * T))
        using relation Qeq by ring.
      rewrite Hinv. lra.
    + apply (Qmult_le_cancel_r _ _ T Hpk).
      setoid_replace ((nq - 100 * (mq * U)) * T) with (nq * T - 100 * mq * (U * T))
        using relation Qeq by ring.
      rewrite Hinv. lra.
Qed.

End RoundTwo.

Section AnnualError.
Local Open Scope Q_scope.

Lemma of_ratio_div_round (s : bool) (n d : positive) :
  of_ratio s n d = div_round s n 0 d 0.
Proof. reflexivity. Qed.

Lemma cents_le_Fmax (m : positive) (e : Z) :
  in_range (S754_finite false m e) ->
  inject_Z (cents m e) <= 100 * Fmax.
Proof.
  intros Hin. pose proof (in_range_le_Fmax _ Hin) as Hmax.
  destruct (cents_spec m e) as [_ Herr]. simpl in Hmax.
  destruct Hin as (_ & Hm & He).
  destruct (Z_le_gt_dec 0 e) as [Hpos|Hneg].
  - assert (Heq : cents m e = (100 * Z.pos m * 2 ^ e)%Z) by (destruct e; try lia; reflexivity).
    rewrite Heq, !inject_Z_mult, pow2_inject by lia.
    change (inject_Z 100) with 100. lra.
  - apply Qabs_Qle_condition in Herr as [_ Hhi].
    assert (Hpow : 2 ^ e <= 2 ^ (-1)) by (apply pow2_le; lia).
    assert (Hm' : inject_Z (Z.pos m) <= inject_Z two53) by (rewrite <- Zle_Qle; lia).
    assert (Hm0 : 0 < inject_Z (Z.pos m)) by (unfold Qlt; simpl; lia).
    pose proof (pow2_pos e).
    assert (Hy : inject_Z (Z.pos m) * 2 ^ e <= inject_Z two53 * 2 ^ (-1))
      by (apply Qmult_le_compat_nonneg; split; lra).
    assert (HT : 2 ^ 0 <= 2 ^ 971) by (apply pow2_le; lia).
    unfold Fmax. qconst (inject_Z two53). qconst (2 ^ (-1)). qconst (2 ^ 0).
    qconst (inject_Z (2 ^ 53 - 1)). lra.
Qed.

(** [round2] moves a nonnegative double by at most one half-cent, up to
    the rounding of the result to a double. *)
Lemma round2_error (y : spec_float) :
  in_range y ->
  in_range (round2 y)
  /\ Qabs (F2Q (round2 y) - F2Q y)
     <= half_cent + 2 ^ (-53) * (F2Q y + half_cent) + 2 ^ (-1075).
Proof.
  intros Hin. pose proof (in_range_nonneg _ Hin) as Hy0.
  pose proof (pow2_pos (-1075)) as Ht.
  destruct y as [s| | |s m e]; try (simpl in Hin; tauto).
  - split; [exact Hin|]. cbn [round2 F2Q]. unfold half_cent. qconst (2 ^ (-53)).
    apply Qabs_Qle_condition. split; lra.
  - pose proof Hin as (-> & _ & _).
    destruct (cents_spec m e) as [Hn0 Hn].
    pose proof (cents_le_Fmax m e Hin) as Hnmax.
    simpl in Hy0. unfold round2. simpl F2Q.
    set (yq := inject_Z (Z.pos m) * 2 ^ e) in *.
    destruct (cents m e) as [|n|n] eqn:Hc; try lia.
    + split; [reflexivity|]. simpl F2Q. change (inject_Z 0) with 0 in Hn.
      apply Qabs_Qle_condition in Hn as [Hlo Hhi].
      unfold half_cent. qconst (2 ^ (-53)).
      apply Qabs_Qle_condition. split; lra.
    + rewrite of_ratio_div_round.
      assert (Hq : quotient n 0 100 0 == inject_Z (Z.pos n) / 100).
      { unfold quotient. change (2 ^ 0) with 1. change (inject_Z 100) with 100.
        field. }
      destruct (div_round_error n 0 100 0) as [Hrange Herr].
      { rewrite Hq. apply Qle_shift_div_r; [reflexivity|]. lra. }
      split; [exact Hrange|]. rewrite Hq in Herr.
      set (c := inject_Z (Z.pos n) / 100) in *.
      assert (Hc100 : inject_Z (Z.pos n) == 100 * c) by (unfold c; field).
      rewrite Hc100 in Hn.
      apply Qabs_Qle_condition in Hn as [Hlo Hhi].
      apply Qabs_Qle_condition in Herr as [Hlo' Hhi'].
      unfold half_cent. qconst (2 ^ (-53)).
      apply Qabs_Qle_condition. split; lra.
Qed.

Lemma life_exact_all : forallb life_exact (seqZ 1 40) = true.
Proof. vm_compute. reflexivity. Qed.

Lemma of_Z_life (L : Z) :
  (1 <= L <= 40)%Z ->
  exists m e, of_Z L = S754_finite false m e
              /\ inject_Z (Zpos m) * 2 ^ e == inject_Z L.
Proof.
  intros HL.
  assert (Hin : In L (seqZ 1 40)).
  { apply list_elem_of_In, elem_of_seqZ. lia. }
  pose proof (proj1 (forallb_forall life_exact (seqZ 1 40)) life_exact_all L Hin) as Hok.
  unfold life_exact in Hok.
  destruct (of_Z L) as [| | |[] m e]; try discriminate.
  exists m, e. split; [reflexivity|]. by apply Qeq_bool_iff.
Qed.

(** Dividing a nonnegative double by a life of 1 to 40 years: the result is a
    double within a relative [2^-53] (or [2^-1075]) of the exact quotient. *)
Lemma fdiv_life_error (m : positive) (e : Z) (L : Z) :
  in_range (S754_finite false m e) -> (1 <= L <= 40)%Z ->
  in_range (fdiv (S754_finite false m e) (of_Z L))
  /\ Qabs (F2Q (fdiv (S754_finite false m e) (of_Z L))
           - F2Q (S754_finite false m e) / inject_Z L)
     <= 2 ^ (-53) * (F2Q (S754_finite false m e) / inject_Z L) + 2 ^ (-1075).
Proof.
  intros Hin HL.
  destruct (of_Z_life L HL) as (ml & el & -> & HLq).
  change (fdiv (S754_finite false m e) (S754_finite false ml el))
    with (div_round false m e ml el).
  pose proof (in_range_nonneg _ Hin) as Hx0.
  pose proof (in_range_le_Fmax _ Hin) as Hxmax.
  simpl F2Q in *. set (x := inject_Z (Z.pos m) * 2 ^ e) in *.
  assert (HL1 : 1 <= inject_Z L) by (change 1 with (inject_Z 1); rewrite <- Zle_Qle; lia).
  assert (Hq : quotient m e ml el == x / inject_Z L).
  { unfold quotient. fold x. by rewrite HLq. }
  assert (Hw : x / inject_Z L <= x).
  { apply Qle_shift_div_r; [lra|]. nra. }
  destruct (div_round_error m e ml el) as [Hrange Herr].
  { rewrite Hq. lra. }
  split; [exact Hrange|]. by rewrite Hq in Herr.
Qed.

End AnnualError.

Lemma fdiv_zero_life (s : bool) (L : Z) :
  1 <= L <= 40 -> fdiv (S754_zero s) (of_Z L) = S754_zero s.
Proof.
  intros HL. destruct (of_Z_life L HL) as (m & e & -> & _).
  destruct s; reflexivity.
Qed.

Section AnnualBound.
Local Open Scope Q_scope.

(** The yearly amount against the exact share [C / L]. *)
Lemma annual_amount_error (C : float) (L : Z) :
  valid_binary prec emax C = true ->
  is_finite C = true ->
  fge C (of_Z 0) = true ->
  (1 <= L <= 40)%Z ->
  is_finite (round2 (fdiv C (of_Z L))) = true
  /\ Qabs (inject_Z L * F2Q (round2 (fdiv C (of_Z L))) - F2Q C)
     <= inject_Z L * half_cent + (F2Q C + inject_Z L) * 2 ^ (-50).
Proof.
  intros Hvalid Hfin Hge HL.
  assert (HL1 : 1 <= inject_Z L) by (change 1 with (inject_Z 1); rewrite <- Zle_Qle; lia).
  destruct C as [s| | |s m e]; try discriminate.
  - rewrite (fdiv_zero_life s L HL). split; [reflexivity|].
    cbn [round2 F2Q]. unfold half_cent. qconst (2 ^ (-50)).
    apply Qabs_Qle_condition. split; lra.
  - destruct s; [discriminate|].
    pose proof (valid_in_range m e Hvalid) as Hin.
    destruct (fdiv_life_error m e L Hin HL) as [Hy Hyerr].
    destruct (round2_error _ Hy) as [Ha Haerr].
    pose proof (in_range_nonneg _ Hin) as Hx0.
    pose proof (in_range_nonneg _ Hy) as Hy0.
    set (x := F2Q (S754_finite false m e)) in *.
    set (y := fdiv (S754_finite false m e) (of_Z L)) in *.
    set (a := round2 y) in *.
    split.
    { destruct a; simpl in Ha; try tauto; reflexivity. }
    set (w := x / inject_Z L) in *.
    assert (Hxw : x == inject_Z L * w) by (unfold w; field; lra).
    assert (Hw0 : 0 <= w).
    { apply Qle_shift_div_l; lra. }
    assert (Hdist : Qabs (F2Q a - w) <= half_cent + (w + 1) * 2 ^ (-50)).
    { apply Qabs_Qle_condition in Hyerr as [Hlo Hhi].
      apply Qabs_Qle_condition in Haerr as [Hlo' Hhi'].
      unfold half_cent in *. qconst (2 ^ (-53)). qconst (2 ^ (-50)).
      qconst (2 ^ (-1075)).
      apply Qabs_Qle_condition. split; lra. }
    rewrite Hxw.
    setoid_replace (inject_Z L * F2Q a - inject_Z L * w)
      with (inject_Z L * (F2Q a - w)) using relation Qeq by ring.
    rewrite Qabs_Qmult, (Qabs_pos (inject_Z L)) by lra.
    setoid_replace (inject_Z L * half_cent + (inject_Z L * w + inject_Z L) * 2 ^ (-50))
      with (inject_Z L * (half_cent + (w + 1) * 2 ^ (-50))) using relation Qeq by ring.
    apply Qmult_le_l; [lra | exact Hdist].
Qed.

End AnnualBound.

(** ** Doubles that are nearest *)

Lemma pack_valid (s : bool) (mr er : Z) :
  0 <= mr <= two53 -> -1074 <= er ->
  mr = 0 \/ er = -1074 \/ 2 ^ 52 <= mr ->
  valid_binary prec emax (pack s mr er) = true.
Proof.
  intros Hmr Her Hmag. unfold pack.
  destruct (Z.eqb_spec mr 0) as [|Hnz]; [reflexivity|].
  destruct (Z.ltb_spec mr two53) as [Hlt|Hge].
  - destruct (Z.leb_spec er 971) as [Hle|]; [|reflexivity].
    destruct mr as [|p|p]; try lia. cbn [Z.to_pos valid_binary].
    unfold bounded, canonical_mantissa. apply andb_true_intro. split.
    + apply Z.eqb_eq. rewrite fexp_eq.
      change (Z.pos (digits2_pos p)) with (Zdigits2 (Z.pos p)).
      assert (Hd : Zdigits2 (Z.pos p) <= 53)
        by (apply Zdigits2_le; unfold two53 in *; lia).
      destruct Hmag as [?|[->|Hbig]]; [lia|lia|].
      pose proof (Zdigits2_ge (Z.pos p) 52 ltac:(lia) Hbig). lia.
    + apply Z.leb_le. exact Hle.
  - destruct (Z.leb_spec (er + 1) 971) as [Hle|]; [|reflexivity].
    cbn [valid_binary]. unfold bounded, canonical_mantissa.
    apply andb_true_intro. split.
    + apply Z.eqb_eq. rewrite fexp_eq.
      change (Z.pos (digits2_pos (Z.to_pos (2 ^ 52)))) with 53. lia.
    + apply Z.leb_le. exact Hle.
Qed.

Lemma valid_bounds (s : bool) (m : positive) (e : Z) :
  valid_binary prec emax (S754_finite s m e) = true ->
  Zpos m < two53 /\ -1074 <= e <= 971.
Proof.
  simpl. unfold bounded, canonical_mantissa. intros Hb.
  apply andb_prop in Hb as [Hcan Hle].
  apply Z.eqb_eq in Hcan. apply Z.leb_le in Hle. rewrite fexp_eq in Hcan.
  change (emax - prec)%Z with 971%Z in Hle. split; [|lia].
  pose proof (digits2_pos_bounds m) as [_ Hhi].
  assert (2 ^ Z.pos (digits2_pos m) <= 2 ^ 53)%Z by (apply Z.pow_le_mono_r; lia).
  unfold two53. lia.
Qed.

Section Nearest.
Local Open Scope Q_scope.

(** An integer within one half of [x] is as near to [x] as any integer. *)
Lemma nearest_integer (m k : Z) (x : Q) :
  Qabs (inject_Z m - x) <= 1 # 2 ->
  Qabs (inject_Z m - x) <= Qabs (inject_Z k - x).
Proof.
  intros Hm. destruct (Z.eq_dec k m) as [->|Hne]; [apply Qle_refl|].
  eapply Qle_trans; [exact Hm|].
  apply Qabs_Qle_condition in Hm as [Hlo Hhi].
  assert (Hk : (k <= m - 1)%Z \/ (m + 1 <= k)%Z) by lia.
  destruct Hk as [Hk|Hk]; rewrite Zle_Qle in Hk.
  - replace (m - 1)%Z with (m + -1)%Z in Hk by lia.
    rewrite inject_Z_plus in Hk. change (inject_Z (-1)) with (-1) in Hk.
    rewrite <- Qabs_opp. eapply Qle_trans; [|apply Qle_Qabs]. lra.
  - rewrite inject_Z_plus in Hk. change (inject_Z 1) with 1 in Hk.
    eapply Qle_trans; [|apply Qle_Qabs]. lra.
Qed.

(** The value of a finite double in units of [2^er]: not above zero, an
    integer, or below [2^52] when [er] is above the least exponent. *)
Lemma double_in_units (b : float) (er : Z) :
  valid_binary prec emax b = true -> is_finite b = true ->
  exists beta : Q,
    F2Q b == beta * 2 ^ er
    /\ (beta <= 0
        \/ (exists k : Z, beta == inject_Z k)
        \/ ((-1074 < er)%Z /\ beta < 2 ^ 52)).
Proof.
  intros Hvalid Hfin. pose proof (pow2_pos er) as HER.
  destruct b as [s| | |s m e]; try discriminate.
  - exists 0. split; [simpl; ring|]. left. apply Qle_refl.
  - destruct (valid_bounds s m e Hvalid) as [Hm He].
    assert (Hm0 : 0 < inject_Z (Z.pos m)) by (unfold Qlt; simpl; lia).
    assert (Hsplit : 2 ^ e == 2 ^ (e - er) * 2 ^ er).
    { rewrite <- pow2_add. replace (e - er + er)%Z with e by lia. reflexivity. }
    pose proof (pow2_pos (e - er)) as HD.
    destruct s.
    + exists (- (inject_Z (Z.pos m) * 2 ^ (e - er))). split.
      * simpl. rewrite Hsplit. ring.
      * left. nra.
    + exists (inject_Z (Z.pos m) * 2 ^ (e - er)). split.
      * simpl. rewrite Hsplit. ring.
      * right. destruct (Z_le_gt_dec er e) as [Hle|Hgt].
        -- left. exists (Z.pos m * 2 ^ (e - er))%Z.
           rewrite inject_Z_mult, pow2_inject by lia. reflexivity.
        -- right. split; [lia|].
           assert (Hp : 2 ^ (e - er) <= 2 ^ (-1)) by (apply pow2_le; lia).
           assert (Hm' : inject_Z (Z.pos m) < inject_Z two53)
             by (rewrite <- Zlt_Qlt; exact Hm).
           qconst (inject_Z two53). qconst (2 ^ (-1)). qconst (2 ^ 52). nra.
Qed.

(** A mantissa within one half of [rho], at an exponent that is the least
    one or leaves [rho] its 53 bits, gives a double nearest to
    [rho * 2^er]. *)
Lemma nearest_units (mr er : Z) (rho r : Q) :
  (0 <= mr <= two53)%Z -> (-1074 <= er)%Z ->
  (mr < two53 -> er <= 971)%Z ->
  (mr = two53 -> er + 1 <= 971)%Z ->
  r == rho * 2 ^ er ->
  0 <= rho ->
  Qabs (inject_Z mr - rho) <= 1 # 2 ->
  er = (-1074)%Z \/ 2 ^ 52 <= rho ->
  nearest_double r (pack false mr er).
Proof.
  intros Hmr Her Hsmall Hcarry Hr Hrho Hhalf Hmag.
  destruct (pack_value mr er Hmr Her Hsmall Hcarry) as [Hrange Hval].
  pose proof (pow2_pos er) as HER.
  pose proof Hhalf as Hhalf'. apply Qabs_Qle_condition in Hhalf' as [Hlo Hhi].
  split; [|split].
  - apply pack_valid; [exact Hmr|exact Her|].
    destruct Hmag as [->|Hbig]; [right; by left|]. right. right.
    assert (Hlt : inject_Z (2 ^ 52 - 1) < inject_Z mr).
    { qconst (inject_Z (2 ^ 52 - 1)). qconst (2 ^ 52). lra. }
    rewrite <- Zlt_Qlt in Hlt. lia.
  - destruct (pack false mr er); simpl in Hrange; try tauto; reflexivity.
  - intros b Hvalid Hfin.
    destruct (double_in_units b er Hvalid Hfin) as (beta & Hb & Hcase).
    rewrite Hval, Hb, Hr.
    setoid_replace (inject_Z mr * 2 ^ er - rho * 2 ^ er)
      with ((inject_Z mr - rho) * 2 ^ er) using relation Qeq by ring.
    setoid_replace (beta * 2 ^ er - rho * 2 ^ er)
      with ((beta - rho) * 2 ^ er) using relation Qeq by ring.
    rewrite !Qabs_Qmult, (Qabs_pos (2 ^ er)) by lra.
    apply Qmult_le_compat_r; [|lra].
    destruct Hcase as [Hneg|[(k & Hk)|(Hgt & Hlt)]].
    + rewrite <- (Qabs_opp (beta - rho)).
      eapply Qle_trans; [|apply Qle_Qabs].
      destruct (Z.eq_dec mr 0%Z) as [->|Hnz].
      * change (inject_Z 0) with 0. rewrite <- Qabs_opp.
        setoid_replace (- (0 - rho)) with rho using relation Qeq by ring.
        rewrite Qabs_pos by exact Hrho. lra.
      * assert (H1 : inject_Z 1 <= inject_Z mr) by (rewrite <- Zle_Qle; lia).
        change (inject_Z 1) with 1 in H1.
        eapply Qle_trans; [exact Hhalf|]. lra.
    + rewrite Hk. by apply nearest_integer.
    + destruct Hmag as [->|Hbig]; [lia|].
      eapply Qle_trans; [apply (nearest_integer mr (2 ^ 52) rho Hhalf)|].
      rewrite pow2_inject by lia.
      rewrite <- (Qabs_opp (2 ^ 52 - rho)), <- (Qabs_opp (beta - rho)).
      rewrite Qabs_pos by lra. eapply Qle_trans; [|apply Qle_Qabs]. lra.
Qed.

(** [div_round], in the units of its last place. *)
Lemma div_round_units (m1 : positive) (e1 : Z) (m2 : positive) (e2 : Z) :
  quotient m1 e1 m2 e2 <= Fmax ->
  exists (mr er : Z) (rho : Q),
    div_round false m1 e1 m2 e2 = pack false mr er
    /\ (0 <= mr <= two53)%Z /\ (-1074 <= er)%Z
    /\ (mr < two53 -> er <= 971)%Z
    /\ (mr = two53 -> er + 1 <= 971)%Z
    /\ quotient m1 e1 m2 e2 == rho * 2 ^ er
    /\ 0 <= rho
    /\ Qabs (inject_Z mr - rho) <= 1 # 2
    /\ (er = (-1074)%Z \/ 2 ^ 52 <= rho).
Proof.
  intros Hmax.
  destruct (div_round_spec false m1 e1 m2 e2)
    as (mr & er & a & b & Ha & Hb & Hexp & Her & Hmr & Herr & Hcarry & Hmag & ->).
  set (r := quotient m1 e1 m2 e2) in *.
  set (N := inject_Z (Zpos m1)). set (D := inject_Z (Zpos m2)).
  set (mq := inject_Z mr).
  assert (HN : 0 < N) by (unfold N, Qlt; simpl; lia).
  assert (HD : 0 < D) by (unfold D, Qlt; simpl; lia).
  pose proof (pow2_pos a) as HA. pose proof (pow2_pos b) as HB.
  pose proof (pow2_pos er) as HER. pose proof (pow2_pos e1) as HE1.
  pose proof (pow2_pos e2) as HE2.
  assert (Hpow : 2 ^ a * 2 ^ er * 2 ^ e2 == 2 ^ b * 2 ^ e1).
  { rewrite <- !pow2_add. replace (a + er + e2)%Z with (b + e1)%Z by lia. reflexivity. }
  set (P := N * 2 ^ a). set (W := D * 2 ^ b).
  assert (HW : 0 < W) by (unfold W; nra).
  assert (HP : 0 < P) by (unfold P; nra).
  assert (Hr : r * W == P * 2 ^ er).
  { assert (Hq : r * (D * 2 ^ e2) == N * 2 ^ e1).
    { unfold r, quotient. fold N D. field. split; lra. }
    apply (Qmult_inj_r _ _ (2 ^ e2)); [lra|].
    transitivity (r * (D * 2 ^ e2) * 2 ^ b); [unfold W; ring|]. rewrite Hq.
    transitivity (N * (2 ^ b * 2 ^ e1)); [ring|]. rewrite <- Hpow.
    unfold P. ring. }
  apply Z.abs_le in Herr as [Hlo Hhi].
  assert (Hlo' : (2 * (Zpos m1 * 2 ^ a) <= Zpos m2 * 2 ^ b + 2 * mr * (Zpos m2 * 2 ^ b))%Z) by lia.
  assert (Hhi' : (2 * mr * (Zpos m2 * 2 ^ b) <= Zpos m2 * 2 ^ b + 2 * (Zpos m1 * 2 ^ a))%Z) by lia.
  clear Hlo Hhi.
  rewrite Zle_Qle in Hlo', Hhi'.
  repeat (rewrite inject_Z_plus in Hlo' || rewrite inject_Z_mult in Hlo'
          || rewrite pow2_inject in Hlo' by assumption).
  repeat (rewrite inject_Z_plus in Hhi' || rewrite inject_Z_mult in Hhi'
          || rewrite pow2_inject in Hhi' by assumption).
  fold N D mq P W in Hlo', Hhi'.
  change (inject_Z 2) with 2 in Hlo', Hhi'.
  assert (Hmag' : er = (-1074)%Z \/ 2 ^ 52 * W <= P).
  { destruct Hmag as [?|Hm]; [by left|right].
    rewrite Zle_Qle in Hm.
    repeat (rewrite inject_Z_mult in Hm || rewrite pow2_inject in Hm by lia).
    exact Hm. }
  assert (Hcarry' : mr = two53 -> (2 * inject_Z two53 - 1) * W <= 2 * P).
  { intros Heq. specialize (Hcarry Heq). rewrite Zle_Qle in Hcarry.
    repeat (rewrite inject_Z_mult in Hcarry
            || rewrite pow2_inject in Hcarry by assumption).
    exact Hcarry. }
  clear Hmag Hcarry.
  assert (Hsmall : (mr < two53 -> er <= 971)%Z).
  { intros _. destruct (Z_le_gt_dec er 971) as [|Hgt]; [assumption|exfalso].
    destruct Hmag' as [?|Hm]; [lia|].
    assert (Hbig : 2 ^ 972 <= 2 ^ er) by (apply pow2_le; lia).
    assert (Hrw : 2 ^ 52 * 2 ^ er * W <= Fmax * W) by nra.
    apply Qmult_le_cancel_r in Hrw; [|assumption].
    unfold Fmax in Hrw. change 972%Z with (1 + 971)%Z in Hbig.
    rewrite pow2_add in Hbig. pose proof (pow2_pos 971).
    qconst (2 ^ 52). qconst (2 ^ 1). qconst (inject_Z (2 ^ 53 - 1)). nra. }
  assert (Hbig : (mr = two53 -> er + 1 <= 971)%Z).
  { intros Heq. destruct (Z_le_gt_dec (er + 1) 971) as [|Hgt]; [assumption|exfalso].
    specialize (Hcarry' Heq).
    assert (Hge : 2 ^ 971 <= 2 ^ er) by (apply pow2_le; lia).
    pose proof (Qmult_le_compat_r _ _ (2 ^ er) Hcarry' (Qlt_le_weak _ _ HER)) as Hc2.
    assert (Hrw : (2 * inject_Z two53 - 1) * 2 ^ er * W <= 2 * Fmax * W) by nra.
    apply Qmult_le_cancel_r in Hrw; [|assumption].
    unfold Fmax in Hrw. pose proof (pow2_pos 971).
    qconst (inject_Z two53). qconst (inject_Z (2 ^ 53 - 1)). nra. }
  exists mr, er, (P / W).
  assert (HPW : P / W * W == P) by (field; lra).
  split; [reflexivity|]. split; [exact Hmr|]. split; [exact Her|].
  split; [exact Hsmall|]. split; [exact Hbig|]. split.
  { apply (Qmult_inj_r _ _ W); [lra|]. rewrite Hr.
    transitivity (P / W * W * 2 ^ er); [by rewrite HPW | ring]. }
  split.
  { apply Qle_shift_div_l; [exact HW|]. lra. }
  split.
  { fold mq. apply Qabs_Qle_condition. split.
    - apply (Qmult_le_cancel_r _ _ W HW).
      setoid_replace ((mq - P / W) * W) with (mq * W - P / W * W)
        using relation Qeq by ring.
      rewrite HPW. lra.
    - apply (Qmult_le_cancel_r _ _ W HW).
      setoid_replace ((mq - P / W) * W) with (mq * W - P / W * W)
        using relation Qeq by ring.
      rewrite HPW. lra. }
  destruct Hmag' as [?|Hm]; [by left|right].
  apply Qle_shift_div_l; [exact HW|exact Hm].
Qed.

(** A quotient of two positive mantissas that does not overflow is rounded
    to a double nearest to it. *)
Lemma div_round_nearest (m1 : positive) (e1 : Z) (m2 : positive) (e2 : Z) :
  quotient m1 e1 m2 e2 <= Fmax ->
  nearest_double (quotient m1 e1 m2 e2) (div_round false m1 e1 m2 e2).
Proof.
  intros Hmax.
  destruct (div_round_units m1 e1 m2 e2 Hmax)
    as (mr & er & rho & -> & Hmr & Her & Hsmall & Hbig & Hr & Hrho & Hhalf & Hmag).
  by apply (nearest_units mr er rho).
Qed.

End Nearest.

(** ** Sums of doubles are doubles *)

Lemma digits2_shift_pos (d m : positive) :
  digits2_pos (Pos.iter xO m d) = (digits2_pos m + d)%positive.
Proof.
  induction d as [|d IH] using Pos.peano_ind.
  - simpl. lia.
  - rewrite Pos.iter_succ. simpl. rewrite IH. lia.
Qed.

Lemma binary_round_aux_exact_valid (s : bool) (mz : positive) (ez : Z) :
  ez <= fexp prec emax (Zdigits2 (Zpos mz) + ez) ->
  valid_binary prec emax (binary_round_aux prec emax s (Zpos mz) ez loc_Exact) = true.
Proof.
  intros Hez.
  destruct (binary_round_aux_spec s (Zpos mz) ez loc_Exact (Zpos mz) 1
              ltac:(lia) ltac:(lia) ltac:(simpl; lia))
    as (m1 & Hm1 & Herr & _ & Hmag & ->).
  set (e1 := Z.max ez (fexp prec emax (Zdigits2 (Zpos mz) + ez))) in *.
  assert (He1 : e1 = fexp prec emax (Zdigits2 (Zpos mz) + ez)) by lia.
  rewrite fexp_eq in He1.
  assert (Hp : 0 < 2 ^ (e1 - ez)) by (apply Z.pow_pos_nonneg; lia).
  apply pack_valid; [exact Hm1 | lia |].
  destruct Hmag as [?|[Heq|Hbig]]; [right; by left| |right; right; nia].
  destruct (Z.eq_dec e1 (-1074)) as [|Hne]; [right; by left|]. right. right.
  rewrite Heq, Z.sub_diag, Z.pow_0_r, Z.mul_1_l in Herr.
  assert (m1 = Zpos mz) by lia. subst m1.
  destruct (Zdigits2_bounds (Zpos mz) ltac:(lia)) as [Hlo _].
  replace (Zdigits2 (Z.pos mz) - 1) with 52 in Hlo by lia. exact Hlo.
Qed.

Lemma binary_round_valid (s : bool) (m : positive) (e : Z) :
  valid_binary prec emax (binary_round prec emax s m e) = true.
Proof.
  unfold binary_round, shl_align.
  set (e' := fexp prec emax (Z.pos (digits2_pos m) + e)).
  destruct (e' - e) as [|d|d] eqn:Hd.
  - apply binary_round_aux_exact_valid. simpl Zdigits2. fold e'. lia.
  - apply binary_round_aux_exact_valid. simpl Zdigits2. fold e'. lia.
  - apply binary_round_aux_exact_valid. simpl Zdigits2.
    rewrite digits2_shift_pos, Pos2Z.inj_add.
    replace (Z.pos (digits2_pos m) + Z.pos d + e') with (Z.pos (digits2_pos m) + e) by lia.
    fold e'. lia.
Qed.

Lemma binary_normalize_valid (m e : Z) (szero : bool) :
  valid_binary prec emax (binary_normalize prec emax m e szero) = true.
Proof. destruct m; simpl; [reflexivity| |]; apply binary_round_valid. Qed.

Lemma fadd_valid (x y : float) :
  valid_binary prec emax x = true -> valid_binary prec emax y = true ->
  valid_binary prec emax (fadd x y) = true.
Proof.
  intros Hx Hy. unfold fadd.
  destruct x as [sx|sx| |sx mx ex], y as [sy|sy| |sy my ey];
    try reflexivity; try assumption;
    try (destruct sx, sy; reflexivity).
  cbn [SFadd]. apply binary_normalize_valid.
Qed.

Lemma fold_fadd_valid (amounts : list float) (total : float) :
  valid_binary prec emax total = true ->
  Forall (fun a => valid_binary prec emax a = true) amounts ->
  valid_binary prec emax (fold_left fadd amounts total) = true.
Proof.
  intros Htotal Hall. revert total Htotal.
  induction Hall as [|a amounts Ha _ IH]; intros total Htotal; [exact Htotal|].
  simpl. apply IH. by apply fadd_valid.
Qed.

(** ** Rounding keeps the sign apart *)

Lemma div_round_opp (m1 : positive) (e1 : Z) (m2 : positive) (e2 : Z) :
  div_round true m1 e1 m2 e2 = fneg (div_round false m1 e1 m2 e2).
Proof.
  unfold div_round. destruct (SFdiv_core_binary _ _ _ _ _ _) as [[mz ez] lz].
  unfold binary_round_aux. destruct (shr_fexp _ _ _ _ _) as [mrs e'].
  destruct (shr_fexp _ _ _ _ _) as [mrs' e''].
  destruct (shr_m mrs'); try reflexivity.
  by destruct (e'' <=? emax - prec).
Qed.

Lemma valid_fneg (x : float) :
  valid_binary prec emax (fneg x) = valid_binary prec emax x.
Proof. by destruct x. Qed.

Lemma is_finite_fneg (x : float) : is_finite (fneg x) = is_finite x.
Proof. by destruct x. Qed.

Section NearestSigned.
Local Open Scope Q_scope.

Lemma F2Q_fneg (x : float) : F2Q (fneg x) == - F2Q x.
Proof. destruct x as [| | |[] m e]; simpl; ring. Qed.

Lemma nearest_double_Qeq (r r' : Q) (a : float) :
  r == r' -> nearest_double r a -> nearest_double r' a.
Proof.
  intros Heq (Hv & Hf & Hn). split; [exact Hv|]. split; [exact Hf|].
  intros b Hb Hfb. rewrite <- Heq. by apply Hn.
Qed.

Lemma nearest_double_opp (r : Q) (a : float) :
  nearest_double r a -> nearest_double (- r) (fneg a).
Proof.
  intros (Hv & Hf & Hn). split; [by rewrite valid_fneg|].
  split; [by rewrite is_finite_fneg|].
  intros b Hb Hfb.
  specialize (Hn (fneg b)). rewrite valid_fneg, is_finite_fneg in Hn.
  specialize (Hn Hb Hfb). rewrite !F2Q_fneg in *.
  setoid_replace (- F2Q a - - r) with (- (F2Q a - r)) using relation Qeq by ring.
  setoid_replace (F2Q b - - r) with (- (- F2Q b - r)) using relation Qeq by ring.
  by rewrite !Qabs_opp.
Qed.

Lemma nearest_double_zero (s : bool) (r : Q) :
  r == 0 -> nearest_double r (S754_zero s).
Proof.
  intros Hr. split; [reflexivity|]. split; [reflexivity|].
  intros b _ _. rewrite Hr. simpl F2Q.
  setoid_replace (0 - 0) with 0 using relation Qeq by ring.
  apply Qabs_nonneg.
Qed.

End NearestSigned.

(** ** Cents: nearest, ties to even *)

Lemma div_half_even_tie (a b : Z) :
  0 <= a -> 0 < b ->
  Z.abs (2 * b * div_half_even a b - 2 * a) = b ->
  Z.even (div_half_even a b) = true.
Proof.
  intros Ha Hb. unfold div_half_even.
  pose proof (Z.div_mod a b ltac:(lia)) as Hdiv.
  pose proof (Z.mod_pos_bound a b Hb) as Hmod.
  set (q := a / b) in *. set (r := a mod b) in *.
  destruct (Z.compare_spec (2 * r) b) as [Heq|Hlt|Hgt].
  - intros _. destruct (Z.even q) eqn:Hev; [exact Hev|].
    rewrite Z.add_1_r, Z.even_succ, <- Z.negb_even, Hev. reflexivity.
  - intros Habs. exfalso. nia.
  - intros Habs. exfalso. nia.
Qed.

Section CentsTies.
Local Open Scope Q_scope.

Lemma Qabs_eq_cases (x c : Q) : Qabs x == c -> x == c \/ x == - c.
Proof.
  intros H. destruct (Qlt_le_dec x 0) as [Hneg|Hpos].
  - right. rewrite Qabs_neg in H by lra. lra.
  - left. by rewrite Qabs_pos in H.
Qed.

Lemma cents_rounds (m : positive) (e : Z) :
  rounds_to_cents (inject_Z (Zpos m) * 2 ^ e) (cents m e).
Proof.
  split; [apply cents_spec|]. intros Htie.
  unfold cents in *. destruct e as [|k|k].
  - exfalso. rewrite Z.pow_0_r, Z.mul_1_r, inject_Z_mult in Htie.
    setoid_replace (inject_Z 100 * inject_Z (Z.pos m)
                    - 100 * (inject_Z (Z.pos m) * 2 ^ 0)) with 0 using relation Qeq
      in Htie by (change (2 ^ 0) with 1; change (inject_Z 100) with 100; ring).
    discriminate.
  - exfalso. rewrite !inject_Z_mult, pow2_inject in Htie by lia.
    setoid_replace (inject_Z 100 * inject_Z (Z.pos m) * 2 ^ Z.pos k
                    - 100 * (inject_Z (Z.pos m) * 2 ^ Z.pos k)) with 0 using relation Qeq
      in Htie by (change (inject_Z 100) with 100; ring).
    discriminate.
  - assert (Hb : (0 < 2 ^ Z.pos k)%Z) by (apply Z.pow_pos_nonneg; lia).
    apply (div_half_even_tie (100 * Z.pos m) (2 ^ Z.pos k)); [lia|exact Hb|].
    set (n := div_half_even (100 * Z.pos m) (2 ^ Z.pos k)) in *.
    assert (Hinv : 2 ^ Z.neg k * 2 ^ Z.pos k == 1).
    { rewrite <- pow2_add. replace (Z.neg k + Z.pos k)%Z with 0%Z by lia.
      reflexivity. }
    assert (HT : inject_Z (2 ^ Z.pos k) == 2 ^ Z.pos k) by (apply pow2_inject; lia).
    pose proof (pow2_pos (Z.pos k)) as Hpk.
    set (T := 2 ^ Z.pos k) in *. set (U := 2 ^ Z.neg k) in *.
    set (t := (2 ^ Z.pos k)%Z) in *.
    assert (Hq : inject_Z (2 * t * n - 2 * (100 * Z.pos m)) == inject_Z t
                 \/ inject_Z (2 * t * n - 2 * (100 * Z.pos m)) == inject_Z (- t)).
    { replace (2 * t * n - 2 * (100 * Z.pos m))%Z
        with (2 * t * n + - (2 * (100 * Z.pos m)))%Z by lia.
      rewrite inject_Z_plus, inject_Z_opp, !inject_Z_mult, inject_Z_opp, HT.
      change (inject_Z 2) with 2. change (inject_Z 100) with 100.
      set (mq := inject_Z (Z.pos m)) in *. set (nq := inject_Z n) in *.
      assert (Hd : (nq - 100 * (mq * U)) * T == nq * T - 100 * mq)
        by (transitivity (nq * T - 100 * mq * (U * T)); [ring | rewrite Hinv; ring]).
      destruct (Qabs_eq_cases _ _ Htie) as [Hc|Hc]; rewrite Hc in Hd; [left|right]; lra. }
    destruct Hq as [Hq|Hq]; unfold Qeq in Hq; simpl in Hq; lia.
Qed.

End CentsTies.

(** ** [round2] and the division by a life, against their specifications *)

Section RoundTwoSpec.
Local Open Scope Q_scope.

Lemma rounds_to_cents_zero : rounds_to_cents 0 0.
Proof.
  unfold rounds_to_cents. change (inject_Z 0) with 0.
  setoid_replace (0 - 100 * 0) with 0 using relation Qeq by ring.
  split; [discriminate|]. intros Habs. discriminate.
Qed.

Lemma rounds_to_cents_opp (x : Q) (n : Z) :
  rounds_to_cents x n -> rounds_to_cents (- x) (- n).
Proof.
  intros [Hnear Htie]. unfold rounds_to_cents.
  assert (Heq : Qabs (inject_Z (- n) - 100 * - x) == Qabs (inject_Z n - 100 * x)).
  { rewrite inject_Z_opp, <- (Qabs_opp (inject_Z n - 100 * x)).
    apply Qabs_wd. ring. }
  rewrite Heq, Z.even_opp. by split.
Qed.

Lemma round2_spec (x : float) :
  valid_binary prec emax x = true -> spec_round2 x (round2 x).
Proof.
  intros Hvalid. unfold spec_round2.
  destruct x as [s|s| |s m e]; cbn [is_finite]; try reflexivity.
  - exists 0%Z. split; [apply rounds_to_cents_zero|].
    apply nearest_double_zero. reflexivity.
  - destruct (valid_bounds s m e Hvalid) as [Hm He].
    assert (Hin : in_range (S754_finite false m e)) by (simpl; auto).
    pose proof (cents_rounds m e) as Hcents.
    destruct (cents_spec m e) as [Hc0 _].
    pose proof (cents_le_Fmax m e Hin) as Hcmax.
    exists (if s then (- cents m e)%Z else cents m e). split.
    + destruct s; simpl F2Q; [by apply rounds_to_cents_opp | exact Hcents].
    + unfold round2. destruct (cents m e) as [|n|n] eqn:Hc; try lia.
      * apply nearest_double_zero. by destruct s.
      * rewrite of_ratio_div_round.
        assert (Hq : quotient n 0 100 0 == inject_Z (Z.pos n) / 100).
        { unfold quotient. change (2 ^ 0) with 1. change (inject_Z 100) with 100.
          field. }
        assert (Hnear : nearest_double (inject_Z (Z.pos n) / 100)
                                       (div_round false n 0 100 0)).
        { apply (nearest_double_Qeq _ _ _ Hq). apply div_round_nearest.
          rewrite Hq. apply Qle_shift_div_r; [reflexivity|]. lra. }
        destruct s; [|exact Hnear].
        rewrite div_round_opp.
        apply (nearest_double_Qeq (- (inject_Z (Z.pos n) / 100))).
        { rewrite inject_Z_opp. field. }
        by apply nearest_double_opp.
Qed.

Lemma fdiv_life_spec (C : float) (L : Z) :
  valid_binary prec emax C = true ->
  fge C (of_Z 0) = true ->
  (1 <= L <= 40)%Z ->
  spec_quotient C L (fdiv C (of_Z L))
  /\ valid_binary prec emax (fdiv C (of_Z L)) = true.
Proof.
  intros Hvalid Hge HL. unfold spec_quotient.
  destruct C as [s|s| |s m e]; try discriminate; cbn [is_finite].
  - rewrite (fdiv_zero_life s L HL). split; [|reflexivity].
    apply nearest_double_zero. simpl F2Q. unfold Qdiv. ring.
  - destruct s; [discriminate|].
    destruct (of_Z_life L HL) as (ml & el & -> & _). by split.
  - destruct s; [discriminate|].
    pose proof (valid_in_range m e Hvalid) as Hin.
    destruct (of_Z_life L HL) as (ml & el & -> & HLq).
    change (fdiv (S754_finite false m e) (S754_finite false ml el))
      with (div_round false m e ml el).
    pose proof (in_range_nonneg _ Hin) as Hx0.
    pose proof (in_range_le_Fmax _ Hin) as Hxmax.
    simpl F2Q in *. set (x := inject_Z (Z.pos m) * 2 ^ e) in *.
    assert (HL1 : 1 <= inject_Z L) by (change 1 with (inject_Z 1); rewrite <- Zle_Qle; lia).
    assert (Hq : quotient m e ml el == x / inject_Z L).
    { unfold quotient. fold x. by rewrite HLq. }
    assert (Hw : x / inject_Z L <= x).
    { apply Qle_shift_div_r; [lra|]. nra. }
    assert (Hnear : nearest_double (x / inject_Z L) (div_round false m e ml el)).
    { apply (nearest_double_Qeq _ _ _ Hq). apply div_round_nearest.
      rewrite Hq. lra. }
    split; [exact Hnear|]. by destruct Hnear.
Qed.

End RoundTwoSpec.

(** ** C1: the schedule, entry by entry *)

Lemma schedule_entry_keys (y : Z) (a : float) :
  dom (schedule_entry y a) = ({[ "year"; "amount" ]} : gset string)
  /\ schedule_entry y a !! "year" = Some (JInt y)
  /\ schedule_entry y a !! "amount" = Some (JFloat a).
Proof.
  unfold schedule_entry. split; [|split].
  - rewrite dom_insert_L, dom_singleton_L. reflexivity.
  - by simplify_map_eq.
  - by simplify_map_eq.
Qed.

(** C1. For a cost basis [C >= 0] and a life of [1 <= L <= 40] years the
    calculator returns a record whose method is "SL" and whose schedule has
    exactly [L] entries. The entry at position [i] (from 0) is a dict with
    the two keys [year] and [amount]: its year is [i + 1] and its amount is
    the same number [a] in every entry, where [a] is [round(C / L, 2)]: the
    double [q] nearest to the exact quotient [C / L], rounded to the
    nearest number of cents (ties to the even one) and read back as the
    nearest double. A cost basis of 12000 over 5 years gives five entries,
    of years 1 to 5, each with the amount 2400.0. *)
Theorem C1_depreciation_schedule :
  (forall payload : DepreciationInput.t,
      valid_binary prec emax (DepreciationInput.cost_basis payload) = true ->
      fge (DepreciationInput.cost_basis payload) (of_Z 0) = true ->
      1 <= DepreciationInput.life_years payload <= 40 ->
      exists (record : DepreciationRecord.t) (q a : float),
        calculate_depreciation payload = Ok record
        /\ spec_quotient (DepreciationInput.cost_basis payload)
                         (DepreciationInput.life_years payload) q
        /\ spec_round2 q a
        /\ Z.of_nat (length (DepreciationRecord.schedule record))
           = DepreciationInput.life_years payload
        /\ (forall i : nat,
              Z.of_nat i < DepreciationInput.life_years payload ->
              exists entry : dict,
                DepreciationRecord.schedule record !! i = Some entry
                /\ dom entry = ({[ "year"; "amount" ]} : gset string)
                /\ entry !! "year" = Some (JInt (Z.of_nat i + 1))
                /\ entry !! "amount" = Some (JFloat a))
        /\ DepreciationRecord.method record = "SL")
  /\ (forall (name : string) (d : date),
        exists (record : DepreciationRecord.t) (a : float),
          calculate_depreciation
            {| DepreciationInput.asset_name := name;
               DepreciationInput.cost_basis := of_Z 12000;
               DepreciationInput.placed_in_service := d;
               DepreciationInput.life_years := 5 |} = Ok record
          /\ valid_binary prec emax a = true
          /\ is_finite a = true
          /\ (F2Q a == 2400)%Q
          /\ length (DepreciationRecord.schedule record) = 5%nat
          /\ (forall i : nat,
                (i < 5)%nat ->
                exists entry : dict,
                  DepreciationRecord.schedule record !! i = Some entry
                  /\ entry !! "year" = Some (JInt (Z.of_nat i + 1))
                  /\ entry !! "amount" = Some (JFloat a))).
Proof.
  split.
  - intros payload Hvalid HC HL.
    destruct (fdiv_life_spec _ _ Hvalid HC HL) as [Hq Hqvalid].
    eexists. exists (fdiv (DepreciationInput.cost_basis payload)
                          (of_Z (DepreciationInput.life_years payload))).
    exists (round2 (fdiv (DepreciationInput.cost_basis payload)
                         (of_Z (DepreciationInput.life_years payload)))).
    split; [apply calculate_depreciation_valid; assumption|].
    split; [exact Hq|]. split; [by apply round2_spec|].
    simpl. split; [|split; [|reflexivity]].
    + rewrite length_fmap, length_seqZ. lia.
    + intros i Hi. eexists. split.
      * rewrite list_lookup_fmap, lookup_seqZ_lt by lia. simpl. reflexivity.
      * apply schedule_entry_keys.
  - intros name d. eexists. exists (of_Z 2400).
    split; [apply calculate_depreciation_valid; simpl; [reflexivity | lia]|].
    split; [reflexivity|]. split; [reflexivity|]. split; [reflexivity|].
    simpl. split; [reflexivity|].
    replace (annual_amount (of_Z 12000) 5) with (of_Z 2400)
      by (vm_compute; reflexivity).
    intros i Hi. destruct i as [|[|[|[|[|i]]]]]; try lia;
      (eexists; split; [reflexivity|]; apply schedule_entry_keys).
Qed.

Lemma C1_depreciation_schedule_witness :
  exists (record : DepreciationRecord.t) (q a : float),
    calculate_depreciation thousand_payload = Ok record
    /\ spec_quotient (of_Z 1000) 3 q
    /\ spec_round2 q a
    /\ Z.of_nat (length (DepreciationRecord.schedule record)) = 3
    /\ (forall i : nat,
          Z.of_nat i < 3 ->
          exists entry : dict,
            DepreciationRecord.schedule record !! i = Some entry
            /\ dom entry = ({[ "year"; "amount" ]} : gset string)
            /\ entry !! "year" = Some (JInt (Z.of_nat i + 1))
            /\ entry !! "amount" = Some (JFloat a))
    /\ DepreciationRecord.method record = "SL".
Proof.
  apply (proj1 C1_depreciation_schedule thousand_payload).
  - reflexivity.
  - reflexivity.
  - simpl. lia.
Defined.

(** ** C3: the flags and the total, key by key *)

Lemma flag_entry_keys (category : string) :
  dom (flag_entry category) = ({[ "category"; "hint" ]} : gset string)
  /\ flag_entry category !! "category" = Some (JStr category)
  /\ flag_entry category !! "hint"
     = Some (JStr "Potential deduction – ensure substantiation.").
Proof.
  unfold flag_entry. split; [|split].
  - rewrite dom_insert_L, dom_singleton_L. reflexivity.
  - by simplify_map_eq.
  - by simplify_map_eq.
Qed.

Lemma ascii_eq_codes (a b : ascii) : a = b <-> nat_of_ascii a = nat_of_ascii b.
Proof.
  split; [by intros ->|]. intros Heq.
  by rewrite <- (ascii_nat_embedding a), <- (ascii_nat_embedding b), Heq.
Qed.

(** Lowering [a] gives [b], a character that is no capital, exactly when
    the two are the same letter. *)
Lemma lower_ascii_same_letter (a b : ascii) :
  ((65 <=? nat_of_ascii b) && (nat_of_ascii b <=? 90))%nat = false ->
  lower_ascii a = b <-> same_letter a b = true.
Proof.
  intros Hb. unfold lower_ascii, same_letter.
  pose proof (nat_ascii_bounded a) as Ha.
  rewrite ascii_eq_codes.
  set (x := nat_of_ascii a) in *. set (y := nat_of_ascii b) in *.
  rewrite Hb, orb_false_r.
  apply andb_false_iff in Hb.
  destruct ((65 <=? x) && (x <=? 90))%nat eqn:Hx.
  - apply andb_prop in Hx as [H65 H90].
    apply Nat.leb_le in H65, H90.
    rewrite nat_ascii_embedding by lia.
    cbn [andb]. rewrite orb_true_iff, !Nat.eqb_eq.
    rewrite !Nat.leb_gt in Hb. clearbody x y. lia.
  - cbn [andb]. rewrite orb_false_r, Nat.eqb_eq. reflexivity.
Qed.

Lemma map_lower_same_text (s k : string) :
  forallb (fun b => negb ((65 <=? nat_of_ascii b) && (nat_of_ascii b <=? 90))%nat)
          (list_ascii_of_string k) = true ->
  map_chars lower_ascii s = k <-> same_text s k = true.
Proof.
  revert k. induction s as [|a s IH]; intros [|b k] Hk; simpl;
    try (split; [discriminate|discriminate]); [done|].
  simpl in Hk. apply andb_prop in Hk as [Hb Hk'].
  apply negb_true_iff in Hb.
  rewrite andb_true_iff, <- (IH k Hk'), <- (lower_ascii_same_letter a b Hb).
  split; [intros [= -> ->]; done | intros [-> ->]; done].
Qed.

Lemma writeoff_words_small (k : string) :
  k ∈ writeoff_words ->
  forallb (fun b => negb ((65 <=? nat_of_ascii b) && (nat_of_ascii b <=? 90))%nat)
          (list_ascii_of_string k) = true.
Proof.
  intros Hk. apply list_elem_of_In in Hk.
  destruct Hk as [<-|[<-|[<-|[<-|[]]]]]; vm_compute; reflexivity.
Qed.

Lemma all_ascii_text (s : string) : all_ascii s = ascii_text s.
Proof.
  unfold ascii_text. induction s as [|c s IH]; simpl; [reflexivity|].
  by rewrite IH.
Qed.

Lemma in_categories (s : string) :
  s ∈ writeoff_categories <-> s ∈ writeoff_words.
Proof.
  unfold writeoff_categories, writeoff_words.
  rewrite !elem_of_union, !elem_of_singleton, !elem_of_cons, elem_of_nil. tauto.
Qed.

Section WriteoffKeys.
Context `{PyBuiltins}.

(** The test of the code is the specification's test. *)
Lemma is_writeoff_flagged (e : ExpenseInput.t) :
  is_writeoff e = true <-> flagged (ExpenseInput.category e) = true.
Proof.
  unfold is_writeoff, flagged, lower. rewrite bool_decide_eq_true, in_categories.
  rewrite <- all_ascii_text.
  destruct (all_ascii (ExpenseInput.category e)); rewrite existsb_exists.
  - split.
    + intros Hin. exists (map_chars lower_ascii (ExpenseInput.category e)).
      split; [by apply list_elem_of_In|].
      apply map_lower_same_text; [by apply writeoff_words_small | reflexivity].
    + intros (k & Hk & Hsame). apply list_elem_of_In in Hk.
      apply map_lower_same_text in Hsame; [|by apply writeoff_words_small].
      by rewrite Hsame.
  - split.
    + intros Hin. exists (unicode_lower (ExpenseInput.category e)).
      split; [by apply list_elem_of_In | apply String.eqb_refl].
    + intros (k & Hk & Heq). apply String.eqb_eq in Heq. rewrite Heq.
      by apply list_elem_of_In.
Qed.

(** C3. For expenses whose amounts are doubles, the detector returns a
    dict with the two keys [total_reviewed] and [flags]. [total_reviewed]
    is the float sum of all the amounts, added in input order from 0.0
    whatever the categories are, rounded to 2 decimals: to the nearest
    number of cents (ties to the even one), read back as the nearest
    double. [flags] has one entry per expense whose category is one of
    "home office", "r&d", "depreciation" and "mileage" up to letter case,
    in input order; the entry is a dict with the two keys [category], the
    category as the request wrote it, and [hint], the fixed sentence. The
    specification's example, Mileage 120 and Travel 80, gives the total
    200.0 and the one flag for Mileage. *)
Theorem C3_writeoff_flags :
  (forall expenses : list ExpenseInput.t,
      Forall (fun e => valid_binary prec emax (ExpenseInput.amount e) = true) expenses ->
      exists (total : float) (flags : list dict),
        dom (writeoff_flags expenses) = ({[ "total_reviewed"; "flags" ]} : gset string)
        /\ writeoff_flags expenses !! "total_reviewed" = Some (JFloat total)
        /\ spec_round2 (fold_left fadd (ExpenseInput.amount <$> expenses)
                                  (S754_zero false)) total
        /\ writeoff_flags expenses !! "flags" = Some (JList (JDict <$> flags))
        /\ Forall2
             (fun (e : ExpenseInput.t) (flag : dict) =>
                dom flag = ({[ "category"; "hint" ]} : gset string)
                /\ flag !! "category" = Some (JStr (ExpenseInput.category e))
                /\ flag !! "hint"
                   = Some (JStr "Potential deduction – ensure substantiation."))
             (filter (fun e => flagged (ExpenseInput.category e) = true) expenses)
             flags)
  /\ (exists (total : float) (flag : dict),
        let answer :=
          writeoff_flags
            [ {| ExpenseInput.category := "Mileage"; ExpenseInput.amount := of_Z 120 |};
              {| ExpenseInput.category := "Travel"; ExpenseInput.amount := of_Z 80 |} ] in
        answer !! "total_reviewed" = Some (JFloat total)
        /\ valid_binary prec emax total = true
        /\ is_finite total = true
        /\ (F2Q total == 200)%Q
        /\ answer !! "flags" = Some (JList [JDict flag])
        /\ flag !! "category" = Some (JStr "Mileage")
        /\ flag !! "hint" = Some (JStr "Potential deduction – ensure substantiation.")).
Proof.
  split.
  - intros expenses Hvalid.
    exists (round2 (fold_left fadd (ExpenseInput.amount <$> expenses) (S754_zero false))).
    exists ((fun e => flag_entry (ExpenseInput.category e))
              <$> filter (fun e => is_writeoff e = true) expenses).
    unfold writeoff_flags. rewrite writeoff_loop. simpl app.
    split; [by rewrite dom_insert_L, dom_singleton_L|].
    split; [by simplify_map_eq|]. split.
    { apply round2_spec, fold_fadd_valid; [reflexivity|].
      by apply Forall_fmap. }
    split; [by simplify_map_eq|].
    rewrite (list_filter_iff (fun e => is_writeoff e = true)
               (fun e => flagged (ExpenseInput.category e) = true) expenses
               is_writeoff_flagged).
    apply Forall2_fmap_r, Forall_Forall2_diag, Forall_forall.
    intros e _. apply flag_entry_keys.
  - exists (of_Z 200), (flag_entry "Mileage"). cbv zeta.
    assert (Hm : is_writeoff {| ExpenseInput.category := "Mileage";
                                ExpenseInput.amount := of_Z 120 |} = true).
    { apply is_writeoff_flagged. reflexivity. }
    assert (Ht : is_writeoff {| ExpenseInput.category := "Travel";
                                ExpenseInput.amount := of_Z 80 |} = false).
    { apply not_true_is_false. rewrite is_writeoff_flagged. discriminate. }
    unfold writeoff_flags. rewrite writeoff_loop.
    rewrite filter_cons_True by exact Hm.
    rewrite filter_cons_False by (rewrite Ht; discriminate).
    rewrite filter_nil. cbn [fmap list_fmap app ExpenseInput.category].
    replace (round2 _) with (of_Z 200) by (vm_compute; reflexivity).
    split; [by simplify_map_eq|]. split; [reflexivity|]. split; [reflexivity|].
    split; [reflexivity|]. split; [by simplify_map_eq|].
    split; apply flag_entry_keys.
Qed.

End WriteoffKeys.

Lemma C3_writeoff_flags_witness :
  exists (total : float) (flags : list dict),
    dom (@writeoff_flags ascii_builtins mixed_case_expenses)
    = ({[ "total_reviewed"; "flags" ]} : gset string)
    /\ @writeoff_flags ascii_builtins mixed_case_expenses !! "total_reviewed"
       = Some (JFloat total)
    /\ spec_round2 (fold_left fadd (ExpenseInput.amount <$> mixed_case_expenses)
                              (S754_zero false)) total
    /\ @writeoff_flags ascii_builtins mixed_case_expenses !! "flags"
       = Some (JList (JDict <$> flags))
    /\ Forall2
         (fun (e : ExpenseInput.t) (flag : dict) =>
            dom flag = ({[ "category"; "hint" ]} : gset string)
            /\ flag !! "category" = Some (JStr (ExpenseInput.category e))
            /\ flag !! "hint"
               = Some (JStr "Potential deduction – ensure substantiation."))
         [ {| ExpenseInput.category := "R&D"; ExpenseInput.amount := of_Z 1999 |};
           {| ExpenseInput.category := "home OFFICE"; ExpenseInput.amount := of_Z (-5) |} ]
         flags.
Proof.
  apply (proj1 (@C3_writeoff_flags ascii_builtins) mixed_case_expenses).
  repeat constructor.
Defined.

(** ** Depreciation totals *)

Lemma entry_amount_schedule_entry (y : Z) (a : float) :
  entry_amount (schedule_entry y a) = a.
Proof. unfold entry_amount, schedule_entry. by simplify_map_eq. Qed.

Lemma schedule_total_const (a : float) (years : list Z) :
  (schedule_total ((fun y => schedule_entry (y + 1) a) <$> years)
   == inject_Z (Z.of_nat (length years)) * F2Q a)%Q.
Proof.
  induction years as [|y years IH].
  - simpl. unfold Qeq. simpl. lia.
  - rewrite fmap_cons. unfold schedule_total in *. simpl fold_right.
    rewrite IH, entry_amount_schedule_entry.
    rewrite length_cons, Nat2Z.inj_succ. unfold Z.succ.
    rewrite inject_Z_plus. ring.
Qed.

(** C7, as stated, fails: a cost basis of 0.125 over 1 year gives the one
    amount [round(0.125, 2)], the double nearest to 0.12, which lies below
    0.12; its distance to 0.125 is more than one half-cent. *)
Lemma C7_counterexample :
  fge (DepreciationInput.cost_basis eighth_payload) (of_Z 0) = true
  /\ calculate_depreciation eighth_payload
     = Ok {| DepreciationRecord.asset_name := "stamp";
             DepreciationRecord.cost_basis := of_ratio false 1 8;
             DepreciationRecord.placed_in_service := {| year := 2024; month := 1; day := 2 |};
             DepreciationRecord.method := "SL";
             DepreciationRecord.life_years := 1;
             DepreciationRecord.schedule := [schedule_entry 1 (of_ratio false 12 100)] |}
  /\ round2 (fdiv (of_ratio false 1 8) (of_Z 1)) = of_ratio false 12 100
  /\ (inject_Z 1 * half_cent
       < Qabs (inject_Z 1 * F2Q (round2 (fdiv (of_ratio false 1 8) (of_Z 1)))
               - F2Q (of_ratio false 1 8)))%Q.
Proof. repeat split; vm_compute; reflexivity. Qed.

(** For a large cost basis the rounding of the quotient to a double is what
    counts: 10^17 over 3 years gives amounts of 33333333333333332.0, and
    three of them are 4 short of the cost basis. *)
Lemma large_cost_gap :
  exists record,
    calculate_depreciation large_payload = Ok record
    /\ DepreciationRecord.schedule record
       = [schedule_entry 1 (of_Z 33333333333333332);
          schedule_entry 2 (of_Z 33333333333333332);
          schedule_entry 3 (of_Z 33333333333333332)]
    /\ (schedule_total (DepreciationRecord.schedule record)
        - F2Q (DepreciationInput.cost_basis large_payload) == - (4))%Q.
Proof.
  eexists. split; [apply calculate_depreciation_valid; simpl; [reflexivity | lia]|].
  split; vm_compute; reflexivity.
Qed.

(** C7, as the code has it. For a finite cost basis [C >= 0] and a life of
    [1 <= L <= 40] years the amounts of the schedule add up to
    [L * round(C / L, 2)], which lies within
    [L * 0.005 + (C + L) * 2^-50] of [C]: [L] half-cents, and the rounding
    of the quotient and of the two-decimal amount to doubles. When [C] is
    zero every amount is zero and so is the sum. *)
Theorem C7_schedule_total_bound (payload : DepreciationInput.t) :
  valid_binary prec emax (DepreciationInput.cost_basis payload) = true ->
  is_finite (DepreciationInput.cost_basis payload) = true ->
  fge (DepreciationInput.cost_basis payload) (of_Z 0) = true ->
  1 <= DepreciationInput.life_years payload <= 40 ->
  exists record,
    calculate_depreciation payload = Ok record
    /\ (schedule_total (DepreciationRecord.schedule record)
        == inject_Z (DepreciationInput.life_years payload)
           * F2Q (round2 (fdiv (DepreciationInput.cost_basis payload)
                               (of_Z (DepreciationInput.life_years payload)))))%Q
    /\ (Qabs (schedule_total (DepreciationRecord.schedule record)
              - F2Q (DepreciationInput.cost_basis payload))
        <= inject_Z (DepreciationInput.life_years payload) * half_cent
           + (F2Q (DepreciationInput.cost_basis payload)
              + inject_Z (DepreciationInput.life_years payload)) * 2 ^ (-50))%Q
    /\ (is_zero (DepreciationInput.cost_basis payload) = true ->
        Forall (fun entry => is_zero (entry_amount entry) = true)
               (DepreciationRecord.schedule record)
        /\ (schedule_total (DepreciationRecord.schedule record) == 0)%Q).
Proof.
  intros Hvalid Hfin HC HL. eexists. split.
  { apply calculate_depreciation_valid; assumption. }
  cbn [DepreciationRecord.schedule].
  set (C := DepreciationInput.cost_basis payload) in *.
  set (L := DepreciationInput.life_years payload) in *.
  assert (Htotal : (schedule_total
                      ((fun year => schedule_entry (year + 1) (annual_amount C L))
                         <$> seqZ 0 L)
                    == inject_Z L * F2Q (round2 (fdiv C (of_Z L))))%Q).
  { rewrite schedule_total_const, length_seqZ.
    replace (Z.of_nat (Z.to_nat L)) with L by lia. reflexivity. }
  destruct (annual_amount_error C L Hvalid Hfin HC HL) as [_ Hbound].
  split; [exact Htotal|]. split.
  - rewrite Htotal. exact Hbound.
  - intros Hzero. destruct C as [s| | |]; try discriminate.
    unfold annual_amount in *. rewrite (fdiv_zero_life s L HL) in *.
    cbn [round2] in *. split.
    + apply Forall_forall. intros entry Hentry.
      apply list_elem_of_fmap in Hentry as (y & -> & _).
      by rewrite entry_amount_schedule_entry.
    + rewrite Htotal. cbn [F2Q]. ring.
Qed.

Lemma C7_schedule_total_bound_witness :
  exists record,
    calculate_depreciation eighth_payload = Ok record
    /\ (schedule_total (DepreciationRecord.schedule record)
        == inject_Z 1 * F2Q (round2 (fdiv (of_ratio false 1 8) (of_Z 1))))%Q
    /\ (Qabs (schedule_total (DepreciationRecord.schedule record)
              - F2Q (of_ratio false 1 8))
        <= inject_Z 1 * half_cent
           + (F2Q (of_ratio false 1 8) + inject_Z 1) * 2 ^ (-50))%Q
    /\ (is_zero (of_ratio false 1 8) = true ->
        Forall (fun entry => is_zero (entry_amount entry) = true)
               (DepreciationRecord.schedule record)
        /\ (schedule_total (DepreciationRecord.schedule record) == 0)%Q).
Proof.
  apply (C7_schedule_total_bound eighth_payload).
  - reflexivity.
  - reflexivity.
  - reflexivity.
  - simpl. lia.
Defined.

(** * Further properties *)

(** ** Depreciation: when a record is returned *)

Lemma validated_ok {A : Type} (errors : list field_error) (a b : A) :
  validated errors a = Ok b <-> errors = [] /\ a = b.
Proof.
  destruct errors as [|e errors]; simpl; split.
  - intros [= ->]. auto.
  - intros [_ ->]. reflexivity.
  - discriminate.
  - intros [? _]. discriminate.
Qed.

Lemma validated_raises {A : Type} (errors : list field_error) (a : A) (e : exn) :
  validated errors a = Raise e -> e = ValidationError errors /\ errors <> [].
Proof. destruct errors; simpl; [discriminate|]. intros [= <-]. split; congruence. Qed.

Lemma depreciation_checks_nil (C : float) (L : Z) :
  check_float_ge "cost_basis" C 0 ++ check_int_le "life_years" L 40
    ++ check_int_ge "life_years" L 1 = []
  <-> fge C (of_Z 0) = true /\ 1 <= L <= 40.
Proof.
  unfold check_float_ge, check_int_le, check_int_ge.
  destruct (fge C (of_Z 0)), (Z.leb_spec L 40), (Z.leb_spec 1 L); simpl;
    split; try discriminate; try (intros [? ?]; try discriminate; lia);
    intros; split; try reflexivity; lia.
Qed.

Lemma depreciation_input_make (name : string) (C : float) (d : date) (L : Z)
    (payload : DepreciationInput.t) :
  DepreciationInput.make name C d L = Ok payload
  <-> (fge C (of_Z 0) = true /\ 1 <= L <= 40)
      /\ payload = {| DepreciationInput.asset_name := name;
                      DepreciationInput.cost_basis := C;
                      DepreciationInput.placed_in_service := d;
                      DepreciationInput.life_years := L |}.
Proof.
  unfold DepreciationInput.make. rewrite validated_ok, depreciation_checks_nil.
  split; intros [? ?]; split; auto.
Qed.

(** X1. The depreciation route returns a record exactly when
    [cost_basis >= 0] and [1 <= life_years <= 40]; every other request
    ends in a [ValidationError] with at least one line, never in a
    division by zero or an overflow. *)
Theorem depreciation_route_outcome (name : string) (C : float) (d : date) (L : Z) :
  ((exists record, post_depreciation_calc name C d L = Ok record)
   <-> fge C (of_Z 0) = true /\ 1 <= L <= 40)
  /\ (forall e, post_depreciation_calc name C d L = Raise e ->
        exists errors, e = ValidationError errors /\ errors <> []).
Proof.
  unfold post_depreciation_calc.
  destruct (DepreciationInput.make name C d L) as [payload|e0] eqn:Hmake.
  - apply depreciation_input_make in Hmake as [[HC HL] ->]. simpl.
    rewrite calculate_depreciation_valid by assumption. split.
    + split; [auto | eauto].
    + discriminate.
  - simpl. split.
    + split.
      * intros [record ?]. discriminate.
      * intros Hok. exfalso.
        assert (Hm : exists p, DepreciationInput.make name C d L = Ok p).
        { eexists. apply depreciation_input_make. split; [exact Hok | reflexivity]. }
        destruct Hm as [p Hp]. congruence.
    + intros e [= <-]. unfold DepreciationInput.make in Hmake.
      apply validated_raises in Hmake as [-> Hne]. eauto.
Qed.

Lemma record_checks_nil (C : float) (L : Z) :
  check_float_ge "cost_basis" C 0 ++ check_literal "method" "SL" ["SL"]
    ++ check_int_le "life_years" L 40 ++ check_int_ge "life_years" L 1 = []
  <-> fge C (of_Z 0) = true /\ 1 <= L <= 40.
Proof.
  change (check_literal "method" "SL" ["SL"]) with (@nil field_error).
  apply depreciation_checks_nil.
Qed.

Lemma calculate_depreciation_inv (payload : DepreciationInput.t)
    (record : DepreciationRecord.t) :
  calculate_depreciation payload = Ok record ->
  fge (DepreciationInput.cost_basis payload) (of_Z 0) = true
  /\ 1 <= DepreciationInput.life_years payload <= 40.
Proof.
  unfold calculate_depreciation. intros Hrun.
  destruct (float_truediv_int _ _) as [quotient|]; [|discriminate].
  simpl in Hrun. unfold DepreciationRecord.make in Hrun.
  apply validated_ok in Hrun as [Hnil _].
  by apply record_checks_nil in Hnil.
Qed.

(** X2. Whatever the payload, a record that [calculate_depreciation]
    returns carries the payload's name, cost basis, date and life, has the
    method "SL" and as many schedule entries as years of life, and passes
    the [DepreciationRecord] validation unchanged: it can be posted to the
    save route as it is. *)
Theorem returned_record_invariants (payload : DepreciationInput.t)
    (record : DepreciationRecord.t) :
  calculate_depreciation payload = Ok record ->
  DepreciationRecord.asset_name record = DepreciationInput.asset_name payload
  /\ DepreciationRecord.cost_basis record = DepreciationInput.cost_basis payload
  /\ DepreciationRecord.placed_in_service record
     = DepreciationInput.placed_in_service payload
  /\ DepreciationRecord.life_years record = DepreciationInput.life_years payload
  /\ DepreciationRecord.method record = "SL"
  /\ Z.of_nat (length (DepreciationRecord.schedule record))
     = DepreciationRecord.life_years record
  /\ revalidate_record record = Ok record.
Proof.
  intros Hrun. destruct (calculate_depreciation_inv _ _ Hrun) as [HC HL].
  rewrite (calculate_depreciation_valid payload HC HL) in Hrun.
  injection Hrun as <-. unfold revalidate_record. cbn.
  repeat split.
  - rewrite length_fmap, length_seqZ. lia.
  - unfold DepreciationRecord.make. apply validated_ok. split; [|reflexivity].
    by apply record_checks_nil.
Qed.

Lemma returned_record_invariants_witness :
  DepreciationRecord.asset_name eighth_record
  = DepreciationInput.asset_name eighth_payload
  /\ DepreciationRecord.cost_basis eighth_record
     = DepreciationInput.cost_basis eighth_payload
  /\ DepreciationRecord.placed_in_service eighth_record
     = DepreciationInput.placed_in_service eighth_payload
  /\ DepreciationRecord.life_years eighth_record
     = DepreciationInput.life_years eighth_payload
  /\ DepreciationRecord.method eighth_record = "SL"
  /\ Z.of_nat (length (DepreciationRecord.schedule eighth_record))
     = DepreciationRecord.life_years eighth_record
  /\ revalidate_record eighth_record = Ok eighth_record.
Proof.
  apply (returned_record_invariants eighth_payload eighth_record).
  vm_compute. reflexivity.
Defined.

(** ** Depreciation: the amounts *)

Lemma annual_amount_in_range (C : float) (L : Z) :
  valid_binary prec emax C = true ->
  is_finite C = true ->
  fge C (of_Z 0) = true ->
  1 <= L <= 40 ->
  is_finite (annual_amount C L) = true /\ flt (annual_amount C L) (of_Z 0) = false.
Proof.
  intros Hvalid Hfin Hge HL. unfold annual_amount.
  destruct C as [s| | |s m e]; try discriminate.
  - rewrite (fdiv_zero_life s L HL). split; reflexivity.
  - destruct s; [discriminate|].
    pose proof (valid_in_range m e Hvalid) as Hin.
    destruct (fdiv_life_error m e L Hin HL) as [Hy _].
    destruct (round2_error _ Hy) as [Ha _].
    destruct (round2 _) as [s'| | |s' m' e']; cbn [in_range] in Ha;
      try contradiction.
    + rewrite Ha. split; reflexivity.
    + destruct Ha as (-> & _). split; reflexivity.
Qed.

(** X3. For a finite cost basis [C >= 0] every amount of the returned
    schedule is a finite number that is not below zero: no year is charged
    a negative, infinite or undefined amount. *)
Theorem schedule_amounts_finite_nonnegative (payload : DepreciationInput.t)
    (record : DepreciationRecord.t) :
  valid_binary prec emax (DepreciationInput.cost_basis payload) = true ->
  is_finite (DepreciationInput.cost_basis payload) = true ->
  calculate_depreciation payload = Ok record ->
  Forall (fun entry : dict =>
            exists a, entry !! "amount" = Some (JFloat a)
                      /\ is_finite a = true
                      /\ flt a (of_Z 0) = false)
         (DepreciationRecord.schedule record).
Proof.
  intros Hvalid Hfin Hrun.
  destruct (calculate_depreciation_inv _ _ Hrun) as [HC HL].
  rewrite (calculate_depreciation_valid payload HC HL) in Hrun.
  injection Hrun as <-. cbn [DepreciationRecord.schedule].
  destruct (annual_amount_in_range _ _ Hvalid Hfin HC HL) as [Hf Hn].
  apply Forall_forall. intros entry Hentry.
  apply list_elem_of_fmap in Hentry as (y & -> & _).
  eexists. split; [|split; [exact Hf | exact Hn]].
  unfold schedule_entry. by simplify_map_eq.
Qed.

Lemma schedule_amounts_finite_nonnegative_witness :
  Forall (fun entry : dict =>
            exists a, entry !! "amount" = Some (JFloat a)
                      /\ is_finite a = true
                      /\ flt a (of_Z 0) = false)
         (DepreciationRecord.schedule eighth_record).
Proof.
  apply (schedule_amounts_finite_nonnegative eighth_payload eighth_record);
    vm_compute; reflexivity.
Defined.

Lemma fdiv_infinity_life (L : Z) :
  1 <= L <= 40 -> fdiv (S754_infinity false) (of_Z L) = S754_infinity false.
Proof.
  intros HL. destruct (of_Z_life L HL) as (m & e & -> & _). reflexivity.
Qed.

(** X4. An infinite cost basis passes both validations ([inf >= 0]) and
    gives a schedule whose every amount is infinite. *)
Theorem infinite_cost_basis (name : string) (d : date) (L : Z) :
  1 <= L <= 40 ->
  exists record,
    post_depreciation_calc name (S754_infinity false) d L = Ok record
    /\ Z.of_nat (length (DepreciationRecord.schedule record)) = L
    /\ Forall (fun entry : dict =>
                 entry !! "amount" = Some (JFloat (S754_infinity false)))
              (DepreciationRecord.schedule record).
Proof.
  intros HL. unfold post_depreciation_calc.
  assert (Hmake : DepreciationInput.make name (S754_infinity false) d L
                  = Ok {| DepreciationInput.asset_name := name;
                          DepreciationInput.cost_basis := S754_infinity false;
                          DepreciationInput.placed_in_service := d;
                          DepreciationInput.life_years := L |}).
  { apply depreciation_input_make. split; [|reflexivity]. split; [reflexivity|exact HL]. }
  rewrite Hmake. simpl.
  rewrite calculate_depreciation_valid by (simpl; [reflexivity || lia..]).
  eexists. split; [reflexivity|]. cbn [DepreciationRecord.schedule DepreciationInput.cost_basis DepreciationInput.life_years].
  split.
  - rewrite length_fmap, length_seqZ. lia.
  - apply Forall_forall. intros entry Hentry.
    apply list_elem_of_fmap in Hentry as (y & -> & _).
    unfold annual_amount. rewrite (fdiv_infinity_life L HL).
    unfold schedule_entry. by simplify_map_eq.
Qed.

Lemma infinite_cost_basis_witness :
  exists record,
    post_depreciation_calc "mine" (S754_infinity false)
      {| year := 2024; month := 1; day := 2 |} 7 = Ok record
    /\ Z.of_nat (length (DepreciationRecord.schedule record)) = 7
    /\ Forall (fun entry : dict =>
                 entry !! "amount" = Some (JFloat (S754_infinity false)))
              (DepreciationRecord.schedule record).
Proof. apply infinite_cost_basis. lia. Defined.

(** ** Harvest scanner: success, failure and what the candidates are *)

Lemma is_loss_below_zero (T u : float) :
  is_loss T u = true -> flt u (of_Z 0) = true.
Proof.
  unfold is_loss.
  destruct T as [[]|[]| |[] m e]; destruct u as [[]|[]| |[] m' e'];
    try discriminate; reflexivity.
Qed.

(** For thresholds [0 <= T1 <= T2], what is below [-T2] is below [-T1]. *)
Lemma loss_threshold_mono (T1 T2 u : float) :
  fge T1 (of_Z 0) = true -> fge T2 T1 = true ->
  flt u (fneg T2) = true -> flt u (fneg T1) = true.
Proof.
  destruct T1 as [[]|[]| |[] m1 e1]; try discriminate;
    destruct T2 as [[]|[]| |[] m2 e2]; try discriminate;
    destruct u as [[]|[]| |[] mu eu]; try discriminate; try reflexivity.
  intros _. unfold fge, flt, SFltb, fneg, SFopp, SFcompare, negb.
  change (Pos.compare_cont Eq m2 m1) with (m2 ?= m1)%positive.
  change (Pos.compare_cont Eq mu m2) with (mu ?= m2)%positive.
  change (Pos.compare_cont Eq mu m1) with (mu ?= m1)%positive.
  destruct (Z.compare_spec e2 e1), (Z.compare_spec eu e2), (Z.compare_spec eu e1);
    try discriminate; try reflexivity; try lia;
    destruct (Pos.compare_spec m2 m1), (Pos.compare_spec mu m2),
             (Pos.compare_spec mu m1);
    simpl; try discriminate; try reflexivity; lia.
Qed.

Lemma omap_sublist {A B : Type} (f g : A -> option B) (l : list A) :
  (forall x y, f x = Some y -> g x = Some y) ->
  sublist (omap f l) (omap g l).
Proof.
  intros Hfg. induction l as [|x l IH]; csimpl; [constructor|].
  destruct (f x) as [y|] eqn:Hf.
  - rewrite (Hfg x y Hf). by constructor.
  - destruct (g x); [by constructor | assumption].
Qed.

Section ScannerMore.
Context `{PyBuiltins}.

(** X5. The scanner returns a plan exactly when the threshold is [>= 0]
    and the three numeric fields of every position pass [float()]. *)
Theorem scan_succeeds_iff (payload : HarvestInput.t) :
  (exists plan, scan_tax_loss_harvest payload = Ok plan)
  <-> fge (HarvestInput.threshold payload) (of_Z 0) = true
      /\ Forall converts (HarvestInput.positions payload).
Proof.
  split.
  - intros [plan Hrun]. apply scan_returns in Hrun as (HT & Hall & _). auto.
  - intros [HT Hall]. by apply scan_total.
Qed.

(** X6. Every candidate of a returned plan is a dict with exactly the keys
    [symbol], [unrealized] and [note], and its [unrealized] amount is below
    [-threshold] and below zero: a position is never proposed on a gain. *)
Theorem candidates_are_losses (payload : HarvestInput.t) (plan : HarvestPlan.t) :
  scan_tax_loss_harvest payload = Ok plan ->
  Forall (fun c : dict =>
            dom c = ({[ "symbol"; "unrealized"; "note" ]} : gset string)
            /\ exists u, c !! "unrealized" = Some (JFloat u)
                         /\ flt u (fneg (HarvestInput.threshold payload)) = true
                         /\ flt u (of_Z 0) = true)
         (HarvestPlan.candidates plan).
Proof.
  intros Hrun. destruct (scan_returns _ _ Hrun) as (HT & _ & ->). simpl.
  apply Forall_forall. intros c Hc.
  apply list_elem_of_omap in Hc as (p & _ & Hcand).
  unfold candidate_of in Hcand.
  destruct (position_unrealized p) as [u|]; [|discriminate].
  destruct (is_loss _ u) eqn:Hloss; [|discriminate].
  assert (Hc : c = candidate_entry p u) by congruence. subst c. split.
  - unfold candidate_entry. rewrite !dom_insert_L, dom_singleton_L. set_solver.
  - exists u. split; [apply candidate_entry_unrealized|]. split.
    + rewrite <- (is_loss_nonneg _ _ HT). exact Hloss.
    + by eapply is_loss_below_zero.
Qed.

Lemma scan_loop_raises (threshold : float) (good rest : list dict) (bad : dict)
    (acc : list dict) (e : exn) :
  Forall converts good ->
  position_unrealized bad = Raise e ->
  for_each (scan_position threshold) (good ++ bad :: rest) acc = Raise e.
Proof.
  revert acc. induction good as [|p good IH]; intros acc Hgood Hbad.
  - simpl. rewrite scan_position_unfold, Hbad. reflexivity.
  - inversion Hgood as [|? ? [u Hu] Hrest]; subst. simpl.
    rewrite (scan_position_ok _ _ _ _ Hu). simpl. by apply IH.
Qed.

(** X7. The scan is all or nothing: when a position does not convert, the
    exception of the first such position is what the scan raises, whatever
    the threshold and the positions around it; no plan with the candidates
    found so far is returned. A [cost_basis] that is present but null is
    such a position: it raises [TypeError]. *)
Theorem scan_fails_on_first_bad_position :
  (forall (payload : HarvestInput.t) (good rest : list dict) (bad : dict) (e : exn),
      HarvestInput.positions payload = good ++ bad :: rest ->
      Forall converts good ->
      position_unrealized bad = Raise e ->
      scan_tax_loss_harvest payload = Raise e)
  /\ (forall p : dict,
        p !! "cost_basis" = Some JNull -> position_unrealized p = Raise TypeError).
Proof.
  split.
  - intros payload good rest bad e Hpos Hgood Hbad.
    unfold scan_tax_loss_harvest. rewrite Hpos.
    by rewrite (scan_loop_raises _ _ _ _ _ _ Hgood Hbad).
  - intros p Hnull. unfold position_unrealized, get_default. by rewrite Hnull.
Qed.

(** X8. Scanning two lists one after the other is scanning them apart:
    when both scans return a plan, the scan of the concatenation returns
    the plan whose candidates are those of the first followed by those of
    the second, and whose count is the sum of the two counts. *)
Theorem scan_concatenation (name : string) (T : float) (P1 P2 : list dict)
    (plan1 plan2 : HarvestPlan.t) :
  scan_tax_loss_harvest {| HarvestInput.portfolio_name := name;
                           HarvestInput.positions := P1;
                           HarvestInput.threshold := T |} = Ok plan1 ->
  scan_tax_loss_harvest {| HarvestInput.portfolio_name := name;
                           HarvestInput.positions := P2;
                           HarvestInput.threshold := T |} = Ok plan2 ->
  scan_tax_loss_harvest {| HarvestInput.portfolio_name := name;
                           HarvestInput.positions := P1 ++ P2;
                           HarvestInput.threshold := T |}
  = Ok {| HarvestPlan.portfolio_name := name;
          HarvestPlan.threshold := T;
          HarvestPlan.positions_reviewed :=
            HarvestPlan.positions_reviewed plan1
            + HarvestPlan.positions_reviewed plan2;
          HarvestPlan.candidates :=
            HarvestPlan.candidates plan1 ++ HarvestPlan.candidates plan2 |}.
Proof.
  intros H1 H2.
  apply scan_returns in H1 as (HT & Hall1 & ->).
  apply scan_returns in H2 as (_ & Hall2 & ->).
  cbn [HarvestInput.threshold HarvestInput.positions HarvestInput.portfolio_name
       HarvestPlan.candidates HarvestPlan.positions_reviewed] in *.
  unfold scan_tax_loss_harvest.
  cbn [HarvestInput.threshold HarvestInput.positions HarvestInput.portfolio_name].
  rewrite scan_loop_ok by (by apply Forall_app). simpl mbind.
  rewrite harvest_plan_make, HT, omap_app, length_app, Nat2Z.inj_add.
  reflexivity.
Qed.

(** X9. Raising the threshold never adds a candidate: for thresholds
    [0 <= T1 <= T2] and the same positions, the candidates under [T2] are
    a sublist (same order, some left out) of the candidates under [T1]. *)
Theorem higher_threshold_fewer_candidates (name : string) (T1 T2 : float)
    (P : list dict) (plan1 plan2 : HarvestPlan.t) :
  fge T2 T1 = true ->
  scan_tax_loss_harvest {| HarvestInput.portfolio_name := name;
                           HarvestInput.positions := P;
                           HarvestInput.threshold := T1 |} = Ok plan1 ->
  scan_tax_loss_harvest {| HarvestInput.portfolio_name := name;
                           HarvestInput.positions := P;
                           HarvestInput.threshold := T2 |} = Ok plan2 ->
  sublist (HarvestPlan.candidates plan2) (HarvestPlan.candidates plan1).
Proof.
  intros Hle H1 H2.
  apply scan_returns in H1 as (HT1 & _ & ->).
  apply scan_returns in H2 as (HT2 & _ & ->).
  cbn [HarvestInput.threshold HarvestInput.positions HarvestPlan.candidates] in *.
  apply omap_sublist. intros p c. unfold candidate_of.
  destruct (position_unrealized p) as [u|]; [|discriminate].
  destruct (is_loss T2 u) eqn:Hloss; [|discriminate].
  intros [= <-]. unfold is_loss in *.
  rewrite (is_loss_nonneg _ _ HT2) in Hloss.
  rewrite (is_loss_nonneg _ _ HT1).
  by rewrite (loss_threshold_mono T1 T2 u HT1 Hle Hloss).
Qed.

End ScannerMore.

(** ** Write-off flag detector: totals and lists *)

Lemma fold_fadd_nan (amounts : list float) :
  fold_left fadd amounts S754_nan = S754_nan.
Proof. induction amounts as [|a amounts IH]; [reflexivity | exact IH]. Qed.

Lemma fold_fadd_with_nan (amounts : list float) (total : float) :
  S754_nan ∈ amounts -> fold_left fadd amounts total = S754_nan.
Proof.
  revert total. induction amounts as [|a amounts IH]; intros total Hin.
  - by apply elem_of_nil in Hin.
  - apply elem_of_cons in Hin as [<-|Hin]; simpl.
    + replace (fadd total S754_nan) with S754_nan
        by (destruct total as [[]|[]| |[] m e]; reflexivity).
      apply fold_fadd_nan.
    + by apply IH.
Qed.

Section WriteoffMore.
Context `{PyBuiltins}.

Lemma writeoff_flags_closed (expenses : list ExpenseInput.t) :
  writeoff_flags expenses
  = {[ "total_reviewed" :=
         JFloat (round2 (fold_left fadd (ExpenseInput.amount <$> expenses)
                                   (S754_zero false)));
       "flags" :=
         JList (JDict <$> ((fun e => flag_entry (ExpenseInput.category e))
                             <$> filter (fun e => is_writeoff e = true) expenses)) ]}.
Proof. unfold writeoff_flags. by rewrite writeoff_loop. Qed.

Lemma writeoff_flags_lookup (expenses : list ExpenseInput.t) :
  writeoff_flags expenses !! "flags"
  = Some (JList (JDict <$> ((fun e => flag_entry (ExpenseInput.category e))
                              <$> filter (fun e => is_writeoff e = true) expenses))).
Proof.
  rewrite writeoff_flags_closed. rewrite lookup_insert_ne by done.
  apply lookup_singleton_eq.
Qed.

(** X10. Amounts are not checked: one expense whose amount is NaN makes
    [total_reviewed] NaN, whatever the other amounts are, while the flags
    are still computed. *)
Theorem nan_amount_poisons_total (expenses : list ExpenseInput.t) (e : ExpenseInput.t) :
  e ∈ expenses ->
  ExpenseInput.amount e = S754_nan ->
  writeoff_flags expenses !! "total_reviewed" = Some (JFloat S754_nan)
  /\ exists flags, writeoff_flags expenses !! "flags" = Some (JList flags).
Proof.
  intros Hin Hnan. split.
  - rewrite writeoff_flags_closed, lookup_insert_eq.
    rewrite fold_fadd_with_nan; [reflexivity|].
    apply list_elem_of_fmap. exists e. by rewrite Hnan.
  - eexists. apply writeoff_flags_lookup.
Qed.

(** X11. The flags of two lists of expenses put together are the flags of
    the first followed by the flags of the second, there are never more
    flags than expenses, and an empty list gives a total of 0.0 and no
    flag. *)
Theorem writeoff_flags_of_lists (l1 l2 : list ExpenseInput.t) :
  (exists f1 f2 : list dict,
      writeoff_flags l1 !! "flags" = Some (JList (JDict <$> f1))
      /\ writeoff_flags l2 !! "flags" = Some (JList (JDict <$> f2))
      /\ writeoff_flags (l1 ++ l2) !! "flags" = Some (JList (JDict <$> (f1 ++ f2)))
      /\ (length f1 <= length l1)%nat)
  /\ writeoff_flags []
     = {[ "total_reviewed" := JFloat (S754_zero false); "flags" := JList [] ]}.
Proof.
  split; [|reflexivity].
  exists ((fun e => flag_entry (ExpenseInput.category e))
            <$> filter (fun e => is_writeoff e = true) l1),
         ((fun e => flag_entry (ExpenseInput.category e))
            <$> filter (fun e => is_writeoff e = true) l2).
  rewrite !writeoff_flags_lookup.
  split; [reflexivity|]. split; [reflexivity|]. split.
  - by rewrite filter_app, fmap_app.
  - rewrite length_fmap. apply length_filter.
Qed.

End WriteoffMore.

(** ** Memo generator: the size of the text *)

Lemma string_length_append (s1 s2 : string) :
  String.length (s1 +:+ s2) = (String.length s1 + String.length s2)%nat.
Proof. induction s1 as [|c s1 IH]; simpl; [reflexivity | by rewrite IH]. Qed.

(** X12. The text of a memo is the title and the summary set in a fixed
    template of 377 bytes: its size is theirs plus 377, so it is never
    empty, and it starts with "Position: " and the title. *)
Theorem memo_text_size (payload : MemoInput.t) :
  exists m rest,
    generate_defense_memo payload = Ok m
    /\ String.length (Memo.memo_text m)
       = (String.length (MemoInput.title payload)
          + String.length (MemoInput.position_summary payload) + 377)%nat
    /\ Memo.memo_text m <> ""
    /\ Memo.memo_text m = "Position: " +:+ MemoInput.title payload +:+ rest.
Proof.
  eexists. eexists. split; [apply generate_defense_memo_returns|].
  cbn [Memo.memo_text]. unfold memo_template. split; [|split].
  - rewrite !string_length_append. simpl. lia.
  - discriminate.
  - reflexivity.
Qed.

(** ** The user profile *)

Lemma check_literal_nil (field value : string) (allowed : list string) :
  check_literal field value allowed = [] <-> value ∈ allowed.
Proof.
  unfold check_literal. rewrite list_elem_of_In.
  destruct (existsb (String.eqb value) allowed) eqn:Hex.
  - split; [|reflexivity]. intros _.
    apply existsb_exists in Hex as (x & Hin & Heq).
    apply String.eqb_eq in Heq. by subst.
  - split; [discriminate|]. intros Hin. exfalso.
    assert (Htrue : existsb (String.eqb value) allowed = true).
    { apply existsb_exists. exists value. split; [assumption|]. apply String.eqb_refl. }
    congruence.
Qed.

Lemma check_literal_line (field value : string) (allowed : list string)
    (line : field_error) :
  line ∈ check_literal field value allowed ->
  line = (field, Literal allowed) /\ value ∉ allowed.
Proof.
  intros Hin. destruct (check_literal field value allowed) eqn:Hc.
  - by apply elem_of_nil in Hin.
  - assert (Hne : ~ value ∈ allowed).
    { intros Hv. apply (check_literal_nil field) in Hv. congruence. }
    unfold check_literal in Hc.
    destruct (existsb _ _); [discriminate|]. injection Hc as <- <-.
    apply list_elem_of_singleton in Hin. auto.
Qed.

Section ProfileFacts.
Context `{EmailValidator}.

(** X13. A user profile is built exactly when the email address is
    accepted and [filing_status], [employment_type] and, when given,
    [risk_tolerance] are among their listed values. The profile then holds
    the normalized address and the fields as given, with [entities]
    defaulting to the empty list and [risk_tolerance] to "medium". *)
Theorem profile_accepted_iff (full_name email country filing_status
    employment_type : string) (entities : option (list string))
    (risk_tolerance : option string) (profile : UserProfile.t) :
  UserProfile.make full_name email country filing_status employment_type
                   entities risk_tolerance = UserProfile.Accepted profile
  <-> exists address,
        validate_email email = Some address
        /\ filing_status ∈ UserProfile.filing_statuses
        /\ employment_type ∈ UserProfile.employment_types
        /\ (forall r, risk_tolerance = Some r -> r ∈ UserProfile.risk_tolerances)
        /\ profile = {| UserProfile.full_name := full_name;
                        UserProfile.email := address;
                        UserProfile.country := country;
                        UserProfile.filing_status := filing_status;
                        UserProfile.employment_type := employment_type;
                        UserProfile.entities := default [] entities;
                        UserProfile.risk_tolerance := default "medium" risk_tolerance |}.
Proof.
  unfold UserProfile.make.
  pose proof (check_literal_nil "filing_status" filing_status
                UserProfile.filing_statuses) as Hf.
  pose proof (check_literal_nil "employment_type" employment_type
                UserProfile.employment_types) as He.
  assert (Hr : match risk_tolerance with
               | Some r => check_literal "risk_tolerance" r UserProfile.risk_tolerances
               | None => []
               end = []
               <-> forall r, risk_tolerance = Some r -> r ∈ UserProfile.risk_tolerances).
  { destruct risk_tolerance as [r|].
    - rewrite check_literal_nil. split; [by intros ? ? [= <-] | auto].
    - split; [discriminate | reflexivity]. }
  set (errors := _ ++ _ ++ _).
  assert (Hnil : errors = []
                 <-> filing_status ∈ UserProfile.filing_statuses
                     /\ employment_type ∈ UserProfile.employment_types
                     /\ (forall r, risk_tolerance = Some r ->
                                   r ∈ UserProfile.risk_tolerances)).
  { unfold errors. rewrite <- Hf, <- He, <- Hr. split.
    - intros Happ. apply app_eq_nil in Happ as [? Happ].
      apply app_eq_nil in Happ as [? ?]. auto.
    - intros (-> & -> & ->). reflexivity. }
  clearbody errors. destruct (validate_email email) as [address|].
  - destruct errors as [|line errors].
    + split.
      * intros [= <-]. exists address. destruct Hnil as [Hnil _].
        destruct (Hnil eq_refl) as (? & ? & ?). auto.
      * intros (a & [= <-] & _ & _ & _ & ->). reflexivity.
    + split; [discriminate|]. intros (a & _ & Hf' & He' & Hr' & _).
      destruct Hnil as [_ Hnil]. discriminate Hnil. auto.
  - split; [destruct errors; discriminate|].
    intros (a & Hbad & _). discriminate.
Qed.

(** X14. A rejected profile gets a line for [email] exactly when the
    address is refused, and every other line names one of
    [filing_status], [employment_type] and [risk_tolerance] with the list
    of its allowed values, the value sent not being in that list. *)
Theorem profile_rejection_lines (full_name email country filing_status
    employment_type : string) (entities : option (list string))
    (risk_tolerance : option string) (email_line : bool)
    (errors : list field_error) :
  UserProfile.make full_name email country filing_status employment_type
                   entities risk_tolerance = UserProfile.Rejected email_line errors ->
  (email_line = true <-> validate_email email = None)
  /\ (email_line = false -> errors <> [])
  /\ forall line, line ∈ errors ->
       (line = ("filing_status", Literal UserProfile.filing_statuses)
        /\ filing_status ∉ UserProfile.filing_statuses)
       \/ (line = ("employment_type", Literal UserProfile.employment_types)
           /\ employment_type ∉ UserProfile.employment_types)
       \/ (line = ("risk_tolerance", Literal UserProfile.risk_tolerances)
           /\ exists r, risk_tolerance = Some r /\ r ∉ UserProfile.risk_tolerances).
Proof.
  unfold UserProfile.make. set (all := _ ++ _ ++ _).
  assert (Hlines : forall line, line ∈ all ->
            (line = ("filing_status", Literal UserProfile.filing_statuses)
             /\ filing_status ∉ UserProfile.filing_statuses)
            \/ (line = ("employment_type", Literal UserProfile.employment_types)
                /\ employment_type ∉ UserProfile.employment_types)
            \/ (line = ("risk_tolerance", Literal UserProfile.risk_tolerances)
                /\ exists r, risk_tolerance = Some r
                             /\ r ∉ UserProfile.risk_tolerances)).
  { intros line Hin. unfold all in Hin.
    apply elem_of_app in Hin as [Hin|Hin]; [left; by eapply check_literal_line|].
    apply elem_of_app in Hin as [Hin|Hin];
      [right; left; by eapply check_literal_line|].
    right; right. destruct risk_tolerance as [r|].
    - apply check_literal_line in Hin as [-> ?]. eauto.
    - by apply elem_of_nil in Hin. }
  clearbody all. destruct (validate_email email) as [address|].
  - destruct all as [|line all]; [discriminate|].
    intros [= <- <-]. split; [split; discriminate|]. split; [discriminate|].
    exact Hlines.
  - intros Hrej.
    assert (Heq : email_line = true /\ errors = all)
      by (destruct all; injection Hrej as <- <-; auto).
    destruct Heq as [-> ->]. split; [split; reflexivity|].
    split; [discriminate|]. exact Hlines.
Qed.

End ProfileFacts.

(** ** The health check *)

Lemma count_take_chars (n : nat) (s : string) :
  (count_chars (take_chars n s) <= n)%nat.
Proof.
  revert n. induction s as [|c s IH]; intros n; simpl; [lia|].
  destruct (is_continuation c) eqn:Hc; simpl.
  - rewrite Hc. apply IH.
  - destruct n as [|n]; simpl; [lia|]. rewrite Hc. specialize (IH n). lia.
Qed.

Lemma take_chars_prefix (n : nat) (s : string) :
  exists rest, s = take_chars n s +:+ rest.
Proof.
  revert n. induction s as [|c s IH]; intros n; simpl; [by exists ""|].
  destruct (is_continuation c).
  - destruct (IH n) as [rest Hrest]. exists rest.
    change (String c s = String c (take_chars n s +:+ rest)). by f_equal.
  - destruct n as [|n]; [by exists (String c s)|].
    destruct (IH n) as [rest Hrest]. exists rest.
    change (String c s = String c (take_chars n s +:+ rest)). by f_equal.
Qed.

Lemma take_chars_all (n : nat) (s : string) :
  (count_chars s <= n)%nat -> take_chars n s = s.
Proof.
  revert n. induction s as [|c s IH]; intros n; simpl; [reflexivity|].
  destruct (is_continuation c).
  - intros Hn. by rewrite IH.
  - destruct n as [|n]; [lia|]. intros Hn. rewrite IH by lia. reflexivity.
Qed.

(** X15. When the database lists its collections, the health check shows
    the first ten of them at most, in the order of the listing, and
    reports the connection as working. *)
Theorem health_check_lists_ten (names : list string) (env : gmap string string) :
  exists shown rest,
    test_database (Some (Names names)) env !! "collections"
    = Some (JList (JStr <$> shown))
    /\ names = shown ++ rest
    /\ length shown = Nat.min 10 (length names)
    /\ test_database (Some (Names names)) env !! "connection_status"
       = Some (JStr "Connected")
    /\ test_database (Some (Names names)) env !! "database"
       = Some (JStr "✅ Connected & Working").
Proof.
  exists (take 10 names), (drop 10 names). unfold test_database.
  split; [by simplify_map_eq|]. split; [by rewrite take_drop|].
  split; [apply length_take|]. split; by simplify_map_eq.
Qed.

Lemma count_take_chars_min (n : nat) (s : string) :
  count_chars (take_chars n s) = Nat.min n (count_chars s).
Proof.
  revert n. induction s as [|c s IH]; intros n; simpl; [lia|].
  destruct (is_continuation c) eqn:Hc; simpl.
  - rewrite Hc. apply IH.
  - destruct n as [|n]; simpl; [reflexivity|]. rewrite Hc, IH. reflexivity.
Qed.

(** The cut falls before a character, never inside one. *)
Lemma take_chars_split (n : nat) (s : string) :
  exists rest,
    s = take_chars n s +:+ rest
    /\ forall c rest', rest = String c rest' -> is_continuation c = false.
Proof.
  revert n. induction s as [|c s IH]; intros n; simpl.
  - exists "". split; [reflexivity|]. discriminate.
  - destruct (is_continuation c) eqn:Hc.
    + destruct (IH n) as (rest & Hrest & Hcut). exists rest. split; [|exact Hcut].
      change (String c s = String c (take_chars n s +:+ rest)). by f_equal.
    + destruct n as [|n].
      * exists (String c s). split; [reflexivity|]. intros c' rest' [= <- _]. exact Hc.
      * destruct (IH n) as (rest & Hrest & Hcut). exists rest. split; [|exact Hcut].
        change (String c s = String c (take_chars n s +:+ rest)). by f_equal.
Qed.

(** On ASCII text the cut is the substring of the first [n] bytes. *)
Lemma take_chars_ascii (n : nat) (s : string) :
  ascii_text s = true -> take_chars n s = substring 0 n s.
Proof.
  unfold ascii_text. revert n. induction s as [|c s IH]; intros n; simpl.
  - by destruct n.
  - intros Hs. apply andb_prop in Hs as [Hc Hs].
    assert (Hcont : is_continuation c = false).
    { unfold is_continuation. apply Nat.ltb_lt in Hc.
      destruct (Nat.leb_spec 128 (nat_of_ascii c)); [lia|reflexivity]. }
    rewrite Hcont. destruct n as [|n]; [reflexivity|]. by rewrite IH.
Qed.

(** X16. When listing the collections raises, the health check does not
    fail: it reports the text of the exception cut to its first 80
    characters, leaves the connection "Not Connected" and shows no
    collection. The text shown is a prefix of the message with exactly
    [min 80 (len message)] characters, ending before a character and never
    inside one: the whole message when it is no longer than 80
    characters, and the substring of its first 80 bytes when the message
    is ASCII. *)
Theorem health_check_reports_error (message : string) (env : gmap string string) :
  exists shown rest,
    test_database (Some (Fails message)) env !! "database"
    = Some (JStr ("⚠️ Connected but Error: " +:+ shown))
    /\ message = shown +:+ rest
    /\ count_chars shown = Nat.min 80 (count_chars message)
    /\ (forall c rest', rest = String c rest' -> is_continuation c = false)
    /\ (count_chars shown <= 80)%nat
    /\ ((count_chars message <= 80)%nat -> shown = message)
    /\ (ascii_text message = true -> shown = substring 0 80 message)
    /\ test_database (Some (Fails message)) env !! "connection_status"
       = Some (JStr "Not Connected")
    /\ test_database (Some (Fails message)) env !! "collections"
       = Some (JList []).
Proof.
  destruct (take_chars_split 80 message) as (rest & Hrest & Hcut).
  exists (take_chars 80 message), rest. unfold test_database.
  split; [by simplify_map_eq|]. split; [exact Hrest|].
  split; [apply count_take_chars_min|]. split; [exact Hcut|].
  split; [apply count_take_chars|]. split; [apply take_chars_all|].
  split; [apply take_chars_ascii|].
  split; by simplify_map_eq.
Qed.

(** X17. Whatever the database handle and the environment, the answer of
    the health check has the same six keys, says that the backend runs, and
    marks [DATABASE_URL] and [DATABASE_NAME] as set exactly when the
    variable exists and is not empty. *)
Theorem health_check_shape (db : option listing) (env : gmap string string) :
  dom (test_database db env)
  = ({[ "backend"; "database"; "database_url"; "database_name";
        "connection_status"; "collections" ]} : gset string)
  /\ test_database db env !! "backend" = Some (JStr "✅ Running")
  /\ forall key name,
       (key, name) ∈ [("database_url", "DATABASE_URL");
                      ("database_name", "DATABASE_NAME")] ->
       (test_database db env !! key = Some (JStr "✅ Set")
        <-> exists value, env !! name = Some value /\ value <> "")
       /\ (test_database db env !! key = Some (JStr "❌ Not Set")
           <-> env !! name = None \/ env !! name = Some "").
Proof.
  assert (Hflag : forall name,
    (env_flag env name = JStr "✅ Set"
     <-> exists value, env !! name = Some value /\ value <> "")
    /\ (env_flag env name = JStr "❌ Not Set"
        <-> env !! name = None \/ env !! name = Some "")).
  { intros name. unfold env_flag. destruct (env !! name) as [[|c value]|].
    - split; split; try discriminate; auto.
      intros (value & [= <-] & Hne). congruence.
    - split; split; try discriminate; eauto.
      + intros [?|?]; discriminate.
    - split; split; try discriminate; auto.
      intros (value & ? & _). discriminate. }
  split; [|split].
  - unfold test_database. destruct db as [[names|message]|];
      rewrite ?dom_insert_L, dom_singleton_L; set_solver.
  - unfold test_database. destruct db as [[names|message]|]; by simplify_map_eq.
  - intros key name Hin.
    assert (Hkey : test_database db env !! key = Some (env_flag env name)).
    { apply list_elem_of_In in Hin. simpl in Hin.
      destruct Hin as [[= <- <-]|[[= <- <-]|[]]]; unfold test_database;
        destruct db as [[names|message]|]; by simplify_map_eq. }
    rewrite Hkey. destruct (Hflag name) as [Hset Hnot].
    split; (split; [intros [= Heq] | intros Hcond; f_equal]); tauto.
Qed.

(** ** The properties on concrete requests *)

Lemma candidates_are_losses_witness :
  Forall (fun c : dict =>
            dom c = ({[ "symbol"; "unrealized"; "note" ]} : gset string)
            /\ exists u, c !! "unrealized" = Some (JFloat u)
                         /\ flt u (fneg (HarvestInput.threshold example_payload)) = true
                         /\ flt u (of_Z 0) = true)
         (HarvestPlan.candidates example_plan).
Proof.
  apply (@candidates_are_losses ascii_builtins example_payload example_plan).
  exact example_scan.
Defined.

Lemma scan_fails_on_first_bad_position_witness :
  @scan_tax_loss_harvest ascii_builtins broken_payload = Raise TypeError
  /\ @position_unrealized ascii_builtins null_cost_position = Raise TypeError.
Proof.
  pose proof (@scan_fails_on_first_bad_position ascii_builtins) as [Hscan Hnull].
  assert (Hbad : @position_unrealized ascii_builtins null_cost_position
                 = Raise TypeError) by (apply Hnull; reflexivity).
  split; [|exact Hbad].
  apply (Hscan broken_payload [example_position] [∅] null_cost_position TypeError).
  - reflexivity.
  - repeat constructor. exists (of_Z (-600)). vm_compute. reflexivity.
  - exact Hbad.
Defined.

Lemma scan_concatenation_witness :
  @scan_tax_loss_harvest ascii_builtins
    {| HarvestInput.portfolio_name := "main";
       HarvestInput.positions := [example_position; ∅] ++ [example_position; ∅];
       HarvestInput.threshold := of_Z 500 |}
  = Ok {| HarvestPlan.portfolio_name := "main";
          HarvestPlan.threshold := of_Z 500;
          HarvestPlan.positions_reviewed :=
            HarvestPlan.positions_reviewed example_plan
            + HarvestPlan.positions_reviewed example_plan;
          HarvestPlan.candidates :=
            HarvestPlan.candidates example_plan
            ++ HarvestPlan.candidates example_plan |}.
Proof.
  apply (@scan_concatenation ascii_builtins "main" (of_Z 500)
           [example_position; ∅] [example_position; ∅] example_plan example_plan);
    exact example_scan.
Defined.

Lemma higher_threshold_fewer_candidates_witness :
  sublist (HarvestPlan.candidates high_threshold_plan)
          (HarvestPlan.candidates example_plan).
Proof.
  apply (@higher_threshold_fewer_candidates ascii_builtins "main"
           (of_Z 500) (of_Z 1000) [example_position; ∅]
           example_plan high_threshold_plan).
  - reflexivity.
  - exact example_scan.
  - vm_compute. reflexivity.
Defined.

Lemma nan_amount_poisons_total_witness :
  @writeoff_flags ascii_builtins
    [ {| ExpenseInput.category := "Travel"; ExpenseInput.amount := of_Z 80 |};
      nan_expense ] !! "total_reviewed" = Some (JFloat S754_nan)
  /\ exists flags,
       @writeoff_flags ascii_builtins
         [ {| ExpenseInput.category := "Travel"; ExpenseInput.amount := of_Z 80 |};
           nan_expense ] !! "flags" = Some (JList flags).
Proof.
  apply (@nan_amount_poisons_total ascii_builtins _ nan_expense).
  - repeat constructor.
  - reflexivity.
Defined.

Lemma profile_rejection_lines_witness :
  (true = true <-> @validate_email at_sign_validator "ann.example.org" = None)
  /\ (true = false ->
      [("employment_type", Literal UserProfile.employment_types);
       ("risk_tolerance", Literal UserProfile.risk_tolerances)] <> [])
  /\ forall line,
       line ∈ [("employment_type", Literal UserProfile.employment_types);
               ("risk_tolerance", Literal UserProfile.risk_tolerances)] ->
       (line = ("filing_status", Literal UserProfile.filing_statuses)
        /\ "single" ∉ UserProfile.filing_statuses)
       \/ (line = ("employment_type", Literal UserProfile.employment_types)
           /\ "pilot" ∉ UserProfile.employment_types)
       \/ (line = ("risk_tolerance", Literal UserProfile.risk_tolerances)
           /\ exists r, Some "extreme" = Some r /\ r ∉ UserProfile.risk_tolerances).
Proof.
  apply (@profile_rejection_lines at_sign_validator "Ann" "ann.example.org" "NZ"
           "single" "pilot" None (Some "extreme") true).
  reflexivity.
Defined.
